(** * DOM-Clobbering rewriter: replacers and mocks

    A shallow embedding of the two modules of the taint-tracking rewriter:
    - [Replacer]: the operator tables and the syntax-tree replacers
      (module [replacer]);
    - [Mocks]: the taint-aware mock functions, their installation on a
      target object and the generated import code (Rewriter/mocks.js).

    JavaScript objects used as tables are association lists in creation
    order, from which the order [for ... in] walks them is computed;
    objects used as property bags are [gmap string _]. Code that can
    throw returns a [result]. *)

From stdpp Require Import base strings list gmap pretty.

Set Warnings "-register-all".

Open Scope Z_scope.
Open Scope string_scope.

(** ** JavaScript values and completions *)

Module JS.

(** What a [throw] carries. The engine's own errors are told apart by
    their constructor; [ThrowString] is a thrown string. *)
Inductive exn :=
| TypeError
| SyntaxError
| ReferenceError
| OtherError (tag : string)
| ThrowString (s : string).

Inductive result (A : Type) :=
| Ok (a : A)
| Throw (e : exn).
Arguments Ok {A} a.
Arguments Throw {A} e.

Definition bind {A B} (m : result A) (k : A -> result B) : result B :=
  match m with
  | Ok a => k a
  | Throw e => Throw e
  end.

(** Values. Numbers are the integer-valued ones: [VNum n] is the double
    nearest to [n], which is [n] itself up to 2^53.
    [VTainted raw label] is the wrapped value owned by the taint
    substrate: a raw value paired with its provenance label. *)
Inductive value :=
| VUndefined
| VNull
| VBool (b : bool)
| VNum (n : Z)
| VStr (s : string)
| VTainted (raw : value) (label : string).

(** *** How the engine prints a number

    [VNum n] stands for the double nearest to [n]. A double up to 2^53
    is an integer held exactly; above, 53 significant bits are kept,
    rounding to nearest, ties to the even significand. *)
Definition nearest_double (n : Z) : Z :=
  let b := Z.log2 n in
  if Z.leb b 52 then n
  else
    let unit := Z.pow 2 (b - 52) in
    let q := Z.div n unit in
    let r := Z.modulo n unit in
    let q' := if Z.ltb (unit / 2) r then q + 1
              else if Z.eqb r (unit / 2) && Z.odd q then q + 1
              else q in
    q' * unit.

Definition decimal_length (n : Z) : Z :=
  Z.of_nat (String.length (pretty n)).

(** The digits of a positive double [m] of [len] decimal digits, when
    [k] digits are enough: the two multiples of 10^(len-k) around [m]
    are tried; one is kept when it has [k] digits and [m] is its nearest
    double, the nearer to [m] when both do, the even one on a tie. *)
Definition digits_at (m len k : Z) : option Z :=
  let p := Z.pow 10 (len - k) in
  let lo := Z.div m p in
  let hi := lo + 1 in
  let ok s := Z.leb (Z.pow 10 (k - 1)) s && Z.ltb s (Z.pow 10 k)
              && Z.eqb (nearest_double (s * p)) m in
  match ok lo, ok hi with
  | true, true =>
      let dlo := m - lo * p in
      let dhi := hi * p - m in
      if Z.ltb dlo dhi then Some lo
      else if Z.ltb dhi dlo then Some hi
      else if Z.even lo then Some lo else Some hi
  | true, false => Some lo
  | false, true => Some hi
  | false, false => None
  end.

(** The fewest digits that give [m] back, tried from [k] upwards;
    seventeen are always enough for a double. *)
Fixpoint shortest_digits (fuel : nat) (m len k : Z) : Z * Z :=
  match fuel with
  | O => (m, len)
  | S fuel' =>
      match digits_at m len k with
      | Some s => (s, k)
      | None => shortest_digits fuel' m len (k + 1)
      end
  end.

Fixpoint zeros (n : nat) : string :=
  match n with
  | O => ""
  | S n' => "0" +:+ zeros n'
  end.

(** Number::toString on a positive double [m]: the shortest digits,
    padded with zeros up to 21 integer digits, in exponent form beyond.
    A double just below a power of ten that this power rounds to prints
    as the power. *)
Definition positive_text (m : Z) : string :=
  if Z.leb (Z.pow 2 1024) m then "Infinity"
  else
    let len0 := decimal_length m in
    let skl :=
      if Z.eqb (nearest_double (Z.pow 10 len0)) m then (1, 1, len0 + 1)
      else
        let sk := shortest_digits 17 m len0 1 in
        (fst sk, snd sk, len0) in
    let s := fst (fst skl) in
    let k := snd (fst skl) in
    let len := snd skl in
    if Z.leb len 21 then pretty s +:+ zeros (Z.to_nat (len - k))
    else
      match pretty s with
      | String d rest =>
          String d (if Z.eqb k 1 then "" else "." +:+ rest)
          +:+ "e+" +:+ pretty (len - 1)
      | EmptyString => ""
      end.

Definition Number_toString (n : Z) : string :=
  if Z.eqb n 0 then "0"
  else if Z.ltb n 0 then "-" +:+ positive_text (nearest_double (- n))
  else positive_text (nearest_double n).

(** [v.toString()]: a method call, so it throws on [undefined] and
    [null], which have no properties. A wrapped value forwards the call
    to the value it wraps. *)
Fixpoint toString (v : value) : result string :=
  match v with
  | VUndefined | VNull => Throw TypeError
  | VBool true => Ok "true"
  | VBool false => Ok "false"
  | VNum n => Ok (Number_toString n)
  | VStr s => Ok s
  | VTainted raw _ => toString raw
  end.

(** The i-th actual argument of a call; a missing one is [undefined]. *)
Definition arg (i : nat) (args : list value) : value :=
  nth i args VUndefined.

(** A callable: what a call does, and the properties set on the
    function object itself. *)
Record func := Func {
  fn_call : list value -> result value;
  fn_props : gmap string value
}.

(** [f[key]]: an absent property reads as [undefined]. *)
Definition get_prop (f : func) (key : string) : value :=
  match fn_props f !! key with
  | Some v => v
  | None => VUndefined
  end.

(** [f[key] = v]. *)
Definition set_prop (f : func) (key : string) (v : value) : func :=
  {| fn_call := fn_call f; fn_props := <[key := v]> (fn_props f) |}.

(** [v === true]. *)
Definition strict_eq_true (v : value) : bool :=
  match v with
  | VBool true => true
  | _ => false
  end.

End JS.

Export JS.

Declare Scope js_scope.
Delimit Scope js_scope with js.
Notation "x <- m ;; k" := (JS.bind m (fun x => k))
  (at level 100, m at next level, right associativity) : js_scope.
Open Scope js_scope.

(** ** Tables: object literals walked with [for ... in] *)

Module Table.

(** A key that is an array index: the decimal text, without sign or
    leading zero, of an integer up to 2^32 - 2. *)
Definition digit (c : Ascii.ascii) : option N :=
  let n := Ascii.N_of_ascii c in
  if N.leb 48 n && N.leb n 57 then Some (n - 48)%N else None.

Fixpoint digits_value (s : string) (acc : N) : option N :=
  match s with
  | EmptyString => Some acc
  | String c rest =>
      match digit c with
      | Some d => digits_value rest (10 * acc + d)%N
      | None => None
      end
  end.

Definition array_index (k : string) : option N :=
  match k with
  | EmptyString => None
  | String c rest =>
      if String.eqb (String c "") "0" && negb (String.eqb rest "") then None
      else
        match digits_value k 0%N with
        | Some n => if N.leb n 4294967294 then Some n else None
        | None => None
        end
  end.

Definition is_index (k : string) : bool :=
  match array_index k with
  | Some _ => true
  | None => false
  end.

Fixpoint insert_index (i : N) (k : string) (l : list (N * string))
  : list (N * string) :=
  match l with
  | [] => [(i, k)]
  | (j, k') :: rest =>
      if N.leb i j then (i, k) :: l else (j, k') :: insert_index i k rest
  end.

Fixpoint sorted_indices (names : list string) : list (N * string) :=
  match names with
  | [] => []
  | k :: rest =>
      match array_index k with
      | Some i => insert_index i k (sorted_indices rest)
      | None => sorted_indices rest
      end
  end.

(** The order [for ... in] walks own keys given in creation order: the
    array indices first, ascending, then the other keys as created. *)
Definition for_in (names : list string) : list string :=
  (map snd (sorted_indices names)
   ++ List.filter (fun k => negb (is_index k)) names)%list.

Section WithValues.
Context {V : Type}.

(** The own property [key] of an object, [None] when it has none. *)
Fixpoint get (tbl : list (string * V)) (key : string) : option V :=
  match tbl with
  | [] => None
  | (k, v) :: rest => if String.eqb k key then Some v else get rest key
  end.

(** underscore's [_.has(obj, key)]: an own property named [key]. *)
Definition has (tbl : list (string * V)) (key : string) : bool :=
  match get tbl key with
  | Some _ => true
  | None => false
  end.

(** [obj[key] = v] for a value [v] that is not an object: an own
    property is overwritten where it stands and a new one is created
    last, except that assigning ['__proto__'] on an object without such
    an own property reaches the setter of [Object.prototype], which
    ignores the value and creates nothing. *)
Fixpoint set (tbl : list (string * V)) (key : string) (v : V)
  : list (string * V) :=
  match tbl with
  | [] => if String.eqb key "__proto__" then [] else [(key, v)]
  | (k, w) :: rest =>
      if String.eqb k key then (k, v) :: rest
      else (k, w) :: set rest key v
  end.

(** The own keys in creation order. *)
Definition names (tbl : list (string * V)) : list string := map fst tbl.

(** The own keys in the order [for ... in] walks them. *)
Definition keys (tbl : list (string * V)) : list string :=
  for_in (names tbl).
End WithValues.

End Table.

(** ** Module replacer *)

Module Replacer.

Module Syntax.
Definition Identifier := "Identifier".
Definition ExpressionStatement := "ExpressionStatement".
Definition CallExpression := "CallExpression".
Definition UnaryExpression := "UnaryExpression".
Definition BinaryExpression := "BinaryExpression".
Definition LogicalExpression := "LogicalExpression".
Definition UpdateExpression := "UpdateExpression".
End Syntax.

Definition unaryOperatorNames : list (string * string) :=
  [ ("~", "__bitwise_not__");
    ("!", "__logical_not__");
    ("typeof", "__typeof__");
    ("++", "__increment__");
    ("--", "__decrement__") ].

Definition binaryOperatorNames : list (string * string) :=
  [ ("==", "__double_equal__");
    ("===", "__triple_equal__");
    ("!=", "__double_inequal__");
    ("!==", "__triple_inequal__");
    ("+", "__plus__");
    ("-", "__minus__");
    ("*", "__multiply__");
    ("/", "__divide__");
    ("%", "__modulus__");
    ("&", "__bitwise_and__");
    ("|", "__bitwise_or__");
    ("^", "__xor__");
    (">>", "__shift_right__");
    ("<<", "__shift_left__");
    ("&&", "__logical_and__");
    ("||", "__logical_or__");
    (">", "__greater__");
    ("<", "__lesser__");
    (">=", "__greater_equal__");
    ("<=", "__lesser_equal__") ].

Definition functionNames : list (string * string) :=
  [ ("eval", "__eval__") ].

(** The loop [for (let pr in src) dst[pr] = src[pr]] over the keys
    still to visit. Every [pr] it meets is an own key of [src], so
    [src[pr]] is its value. *)
Definition copy_keys (src : list (string * string)) (ks : list string)
    (dst : list (string * string)) : list (string * string) :=
  fold_left
    (fun d pr =>
       match Table.get src pr with
       | Some v => Table.set d pr v
       | None => d
       end)
    ks dst.

(** Shallow copy of every property of [src] into [dst]. *)
Definition copyObject (src dst : list (string * string))
  : list (string * string) :=
  copy_keys src (Table.keys src) dst.

(** [replacerNames] starts empty and receives the function names, then
    the unary names, then the binary names. *)
Definition replacerNames : list (string * string) :=
  copyObject binaryOperatorNames
    (copyObject unaryOperatorNames
      (copyObject functionNames [])).

Definition isUnaryOperator (op : string) : bool :=
  Table.has unaryOperatorNames op.

Definition isBinaryOperator (op : string) : bool :=
  Table.has binaryOperatorNames op.

Definition isFunction (func : string) : bool :=
  Table.has functionNames func.

(** A syntax-tree node, with the fields the replacers read or write.
    An absent field ([undefined]) is [None]. *)
Inductive node := Node {
  type : string;
  operator : option string;
  prefix : option bool;
  name : option string;
  argument : option node;
  left : option node;
  right : option node;
  callee : option node;
  arguments : option (list (option node))
}.

(** [node.operator === op], [callee.name === func]: a string field
    compared with a string; an absent field is never equal. *)
Definition field_is (f : option string) (s : string) : bool :=
  match f with
  | Some x => String.eqb x s
  | None => false
  end.

Definition type_is (n : node) (ty : string) : bool :=
  String.eqb (type n) ty.

(** The literal [{type: Syntax.Identifier, name: ...}]. *)
Definition identifier (nm : string) : node :=
  {| type := Syntax.Identifier; operator := None; prefix := None;
     name := Some nm; argument := None; left := None; right := None;
     callee := None; arguments := None |}.

Record Replacer := {
  predicate : node -> result bool;
  replace : node -> result node
}.

(** A function body made of two [return] statements: control leaves at
    the first one and the second is never run. *)
Definition return_first {A} (first unreachable : A) : A := first.

Definition UnaryOperatorReplacerFactory (op opReplacerName : string)
  : Replacer :=
  {| predicate := fun node =>
       return_first
         (Ok ((type_is node Syntax.UnaryExpression
               || type_is node Syntax.UpdateExpression)
              && field_is (operator node) op))
         (Ok ((type_is node Syntax.BinaryExpression
               || type_is node Syntax.LogicalExpression)
              && field_is (operator node) op));
     replace := fun node =>
       let args := [argument node] in
       Ok {| type := Syntax.CallExpression;
             callee := Some (identifier opReplacerName);
             arguments := Some args;
             operator := operator node; prefix := prefix node;
             name := name node; argument := argument node;
             left := left node; right := right node |} |}.

Definition BinaryOperatorReplacerFactory (op opReplacerName : string)
  : Replacer :=
  {| predicate := fun node =>
       Ok ((type_is node Syntax.BinaryExpression
            || type_is node Syntax.LogicalExpression)
           && field_is (operator node) op);
     replace := fun node =>
       let args := [left node; right node] in
       Ok {| type := Syntax.CallExpression;
             callee := Some (identifier opReplacerName);
             arguments := Some args;
             operator := operator node; prefix := prefix node;
             name := name node; argument := argument node;
             left := left node; right := right node |} |}.

(** [n.name = nm] *)
Definition set_name (n : node) (nm : string) : node :=
  {| name := Some nm;
     type := type n; operator := operator n; prefix := prefix n;
     argument := argument n; left := left n; right := right n;
     callee := callee n; arguments := arguments n |}.

(** [node.callee.name] reads, or writes, a property of [node.callee]: a
    TypeError when the node has no callee. In the predicate the [&&]
    reaches it for a call expression only. *)
Definition FunctionReplacerFactory (func funcReplacerName : string)
  : Replacer :=
  {| predicate := fun node =>
       if type_is node Syntax.CallExpression then
         match callee node with
         | Some c => Ok (field_is (name c) func)
         | None => Throw TypeError
         end
       else Ok false;
     replace := fun node =>
       match callee node with
       | Some c =>
           Ok {| callee := Some (set_name c funcReplacerName);
                 type := type node; operator := operator node;
                 prefix := prefix node; name := name node;
                 argument := argument node; left := left node;
                 right := right node; arguments := arguments node |}
       | None => Throw TypeError
       end |}.

Definition nameTypes : list (string * list (string * string)) :=
  [ ("unary", unaryOperatorNames);
    ("binary", binaryOperatorNames);
    ("function", functionNames) ].

Definition factories : list (string * (string -> string -> Replacer)) :=
  [ ("unary", UnaryOperatorReplacerFactory);
    ("binary", BinaryOperatorReplacerFactory);
    ("function", FunctionReplacerFactory) ].

(** The inner loop of [createAllReplacers]: one replacer per name of one
    table, pushed in table order. Calling an absent factory is a
    TypeError. *)
Fixpoint push_replacers (factory : option (string -> string -> Replacer))
    (names : list (string * string)) (replacers : list Replacer)
  : result (list Replacer) :=
  match names with
  | [] => Ok replacers
  | (nm, repl) :: rest =>
      match factory with
      | Some f => push_replacers factory rest (replacers ++ [f nm repl])%list
      | None => Throw TypeError
      end
  end.

Fixpoint walk_nameTypes (tys : list (string * list (string * string)))
    (replacers : list Replacer) : result (list Replacer) :=
  match tys with
  | [] => Ok replacers
  | (ty, names) :: rest =>
      rs <- push_replacers (Table.get factories ty) names replacers ;;
      walk_nameTypes rest rs
  end.

Definition createAllReplacers : result (list Replacer) :=
  walk_nameTypes nameTypes [].

(** [exports.replacers = createAllReplacers()] *)
Definition replacers : list Replacer :=
  match createAllReplacers with
  | Ok rs => rs
  | Throw _ => []
  end.

(** A replacer is used as the module says:
    [if (replacer.predicate(node)) return replacer.replace(node);]
    so a node is matched when the predicate completes with [true]. *)
Definition matches (r : Replacer) (n : node) : bool :=
  match predicate r n with
  | Ok true => true
  | _ => false
  end.

(** One node put through a list of replacers, in order: the first
    replacer whose predicate holds replaces the node, and a node that no
    predicate holds for is left as it is. *)
Fixpoint apply_replacers (rs : list Replacer) (n : node) : result node :=
  match rs with
  | [] => Ok n
  | replacer :: rest =>
      b <- predicate replacer n ;;
      if b then replace replacer n else apply_replacers rest n
  end.

Definition matching_rules (n : node) : list Replacer :=
  filter (fun r => matches r n = true) replacers.

(** The syntax nodes of a symbol of the tables: a unary or update
    expression with a unary operator, a binary or logical expression
    with a binary operator, a call whose callee carries a function
    name. *)
Definition occurrence_of (sym : string) (n : node) : Prop :=
  (isUnaryOperator sym = true
   /\ (type n = Syntax.UnaryExpression \/ type n = Syntax.UpdateExpression)
   /\ operator n = Some sym)
  \/ (isBinaryOperator sym = true
      /\ (type n = Syntax.BinaryExpression
          \/ type n = Syntax.LogicalExpression)
      /\ operator n = Some sym)
  \/ (isFunction sym = true
      /\ type n = Syntax.CallExpression
      /\ exists c, callee n = Some c /\ name c = Some sym).

(** Where each replacer of the module comes from. *)
Inductive rule_origin (r : Replacer) : Prop :=
| from_unary op nm :
    (op, nm) ∈ unaryOperatorNames ->
    r = UnaryOperatorReplacerFactory op nm -> rule_origin r
| from_binary op nm :
    (op, nm) ∈ binaryOperatorNames ->
    r = BinaryOperatorReplacerFactory op nm -> rule_origin r
| from_function f nm :
    (f, nm) ∈ functionNames ->
    r = FunctionReplacerFactory f nm -> rule_origin r.

(** The functions the module exports, by exported name. The module also
    exports [replacers] and [replacerNames], which are not functions. *)
Definition exported_functions : list (string * (string -> bool)) :=
  [ ("isUnaryOperator", isUnaryOperator);
    ("isBinaryOperator", isBinaryOperator);
    ("isFunction", isFunction) ].

(** [require('replacer').f]: a name the module does not export reads as
    [undefined]. *)
Definition require_function (f : string) : option (string -> bool) :=
  Table.get exported_functions f.

End Replacer.

(** ** Module proxy: the taint substrate *)

Module Proxy.

(** Modelled from the spec: the substrate's taint query
    [isTainted(value) -> bool] of module proxy, which is not part of
    the sources at hand. A value is tainted exactly when it is a
    wrapped value. *)
Definition isObjectTainted (v : value) : bool :=
  match v with
  | VTainted _ _ => true
  | _ => false
  end.

(** Modelled from the spec: [unwrap(taintedValue) -> rawValue]. A value
    that wraps nothing is handed back as it is. *)
Definition getWrappedObject (v : value) : value :=
  match v with
  | VTainted raw _ => raw
  | _ => v
  end.

(** Modelled from the spec: [provenanceName(taintedValue) -> string],
    the label stored with a wrapped value. The substrate keeps no name
    for a value it has not wrapped: the lookup answers [undefined],
    here [None]. *)
Definition getTaintedName (v : value) : option string :=
  match v with
  | VTainted _ label => Some label
  | _ => None
  end.

(** Modelled from the spec:
    [wrap(rawValue, provenanceLabel) -> taintedValue]. *)
Definition buildProxy (raw : value) (label : string) : value :=
  VTainted raw label.

(** A name spliced into a string with [+]: [undefined] reads
    "undefined". *)
Definition name_text (nm : option string) : string :=
  match nm with
  | Some s => s
  | None => "undefined"
  end.

End Proxy.

(** ** Rewriter/mocks.js *)

Module Mocks.

Import Proxy.

Definition replacerNames := Replacer.replacerNames.
Definition isUnaryOperator := Replacer.require_function "isUnaryOperator".
Definition isBinaryOperator := Replacer.require_function "isBinaryOperator".
Definition isFunction := Replacer.require_function "isFunction".
Definition isEqualityOperator :=
  Replacer.require_function "isEqualityOperator".

(** The operators the equality factory is written for. *)
Definition equalityOperators : list string := ["=="; "==="; "!="; "!=="].

Definition mockFunctionKey := "__is_mock_function__".

(** [f[mockFunctionKey] = true]; the function object is the same one
    afterwards, with the property set. *)
Definition markAsMocked (f : func) : func :=
  set_prop f mockFunctionKey (VBool true).

Definition isMarkedAsMocked (f : func) : bool :=
  strict_eq_true (get_prop f mockFunctionKey).

Section Native.

(** The engine's own evaluation of the operators and of a call by
    name, which [new Function] reaches:
    [js_unary op x] is the completion of [return op x;],
    [js_binary op x y] of [return x op y;] and
    [js_call f x] of [return f(x)]. *)
Variable js_unary : string -> value -> result value.
Variable js_binary : string -> value -> value -> result value.
Variable js_call : string -> value -> result value.

(** [new Function('x', 'return ' + op + ' x;')] *)
Definition unary_opFunc (op : string) : func :=
  {| fn_call := fun args => js_unary op (arg 0 args); fn_props := ∅ |}.

(** [new Function('x', 'y', 'return x ' + op + ' y;')] *)
Definition binary_opFunc (op : string) : func :=
  {| fn_call := fun args => js_binary op (arg 0 args) (arg 1 args);
     fn_props := ∅ |}.

(** [new Function('x', 'return ' + funcName + '(x)')] *)
Definition call_func (funcName : string) : func :=
  {| fn_call := fun args => js_call funcName (arg 0 args);
     fn_props := ∅ |}.

Definition UnaryOperatorMockFactory (op : string) : func :=
  let opFunc := markAsMocked (unary_opFunc op) in
  let resultFunc :=
    {| fn_call := fun args =>
         let obj := arg 0 args in
         if isObjectTainted obj then
           let obj := getWrappedObject obj in
           let name := op +:+ "(" +:+ name_text (getTaintedName obj)
                       +:+ ")" in
           r <- fn_call opFunc [obj] ;;
           Ok (buildProxy r name)
         else fn_call opFunc [obj];
       fn_props := ∅ |} in
  markAsMocked resultFunc.

(** The representation of one operand and the operand the operator
    will see: the tracked name and the unwrapped value when tainted,
    ['value(' + v.toString() + ')'] and the value itself otherwise.
    The right name is assigned to [rightName], which the function
    does not declare (it declares [rigthName]); the assignment and the
    later read reach the same global variable. *)
Definition operand_repr (v : value) : result (string * value) :=
  if isObjectTainted v then
    Ok (name_text (getTaintedName v), getWrappedObject v)
  else
    s <- toString v ;;
    Ok ("value(" +:+ s +:+ ")", v).

Definition BinaryOperatorMockFactory (op : string) : func :=
  let opFunc := markAsMocked (binary_opFunc op) in
  let resultFunc :=
    {| fn_call := fun args =>
         let left := arg 0 args in
         let right := arg 1 args in
         let l := isObjectTainted left in
         let r := isObjectTainted right in
         lp <- operand_repr left ;;
         rp <- operand_repr right ;;
         let leftName := fst lp in
         let left := snd lp in
         let rightName := fst rp in
         let right := snd rp in
         if l || r then
           let name := op +:+ "(" +:+ leftName +:+ "," +:+ rightName
                       +:+ ")" in
           res <- fn_call opFunc [left; right] ;;
           Ok (buildProxy res name)
         else fn_call opFunc [left; right];
       fn_props := ∅ |} in
  markAsMocked resultFunc.

Definition FunctionMockFactory (funcName : string) : func :=
  let func := markAsMocked (call_func funcName) in
  let resultFunc :=
    {| fn_call := fun args =>
         let obj := arg 0 args in
         if isObjectTainted obj then
           let name := funcName +:+ "("
                       +:+ name_text (getTaintedName obj) +:+ ")" in
           let obj := getWrappedObject obj in
           r <- fn_call func [obj] ;;
           Ok (buildProxy r name)
         else fn_call func [obj];
       fn_props := ∅ |} in
  markAsMocked resultFunc.

Definition EqualityOperatorMockFactory (op : string) : func :=
  let opFunc := markAsMocked (binary_opFunc op) in
  let resultFunc :=
    {| fn_call := fun args =>
         let left := arg 0 args in
         let right := arg 1 args in
         let l := isObjectTainted left in
         let r := isObjectTainted right in
         let left := if l then getWrappedObject left else left in
         let right := if r then getWrappedObject right else right in
         fn_call opFunc [left; right];
       fn_props := ∅ |} in
  resultFunc.

Definition predicates : list (string * option (string -> bool)) :=
  [ ("unary", isUnaryOperator);
    ("binary", isBinaryOperator);
    ("equality", isEqualityOperator);
    ("function", isFunction) ].

Definition factories : list (string * (string -> func)) :=
  [ ("unary", UnaryOperatorMockFactory);
    ("binary", BinaryOperatorMockFactory);
    ("equality", EqualityOperatorMockFactory);
    ("function", FunctionMockFactory) ].

(** The inner loop of [mapMocksToObject] over the types of a
    predicates table: the factory of the first type whose predicate
    answers [true]; [Ok None] when the loop ends with [factory] still
    [undefined]. Calling a predicate that is [undefined] is a
    TypeError. *)
Fixpoint select_factory
    (preds : list (string * option (string -> bool))) (name : string)
  : result (option (string -> func)) :=
  match preds with
  | [] => Ok None
  | (type, p) :: rest =>
      match p with
      | None => Throw TypeError
      | Some pred =>
          if pred name then Ok (Table.get factories type)
          else select_factory rest name
      end
  end.

(** [obj[replacerNames[name]]]: the property key is the table entry
    turned into a string. *)
Definition replacement_key (name : string) : string :=
  name_text (Table.get replacerNames name).

(** The outer loop, over the names still to visit. The object is
    written in place, so what was installed before a throw stays. *)
Fixpoint install_mocks
    (preds : list (string * option (string -> bool)))
    (names : list string) (obj : gmap string func)
  : gmap string func * result unit :=
  match names with
  | [] => (obj, Ok tt)
  | name :: rest =>
      match select_factory preds name with
      | Throw e => (obj, Throw e)
      | Ok None =>
          (obj,
           Throw (ThrowString
                    ("Unknown type in mocks.mapMocksToObject" +:+ name)))
      | Ok (Some factory) =>
          let mock := factory name in
          install_mocks preds rest (<[replacement_key name := mock]> obj)
      end
  end.

Definition mapMocksToObject (obj : gmap string func)
  : gmap string func * result unit :=
  install_mocks predicates (Table.keys replacerNames) obj.

End Native.

(** *** The generated import code *)

(** What a top-level name of the module holds once its [var] statement
    has run: the marker string, or one of the module's functions, named
    by the variable it is assigned to. *)
Inductive binding :=
| BoundString (s : string)
| BoundFunction (var : string).

(** The module's own [var] bindings in force when the import code is
    built. *)
Definition module_scope : list (string * binding) :=
  [ ("mockFunctionKey", BoundString mockFunctionKey);
    ("markAsMocked", BoundFunction "markAsMocked");
    ("isMarkedAsMocked", BoundFunction "isMarkedAsMocked");
    ("UnaryOperatorMockFactory", BoundFunction "UnaryOperatorMockFactory");
    ("BinaryOperatorMockFactory",
     BoundFunction "BinaryOperatorMockFactory");
    ("FunctionMockFactory", BoundFunction "FunctionMockFactory");
    ("EqualityOperatorMockFactory",
     BoundFunction "EqualityOperatorMockFactory");
    ("mapMocksToObject", BoundFunction "mapMocksToObject") ].

Definition funcImports : list string :=
  [ "markAsMocked";
    "isMarkedAsMocked";
    "UnaryOperatorMockFactory";
    "BinaryOperatorMockFactory";
    "EqualityOperatorMockFactory";
    "FunctionMockFactory";
    "mapMocksToObject" ].

Section Bridge.

(** The two renderers of module misc, which is not part of the
    sources at hand: each turns a value and the name to define into
    source text, or throws. The function renderer is handed whatever
    [this[i]] reads, [None] for [undefined]. *)
Variable functionDefToCode : option binding -> string -> result string.
Variable variableDefToCode : binding -> string -> result string.

(** [for (let i of funcImports) importCode += functionDefToCode(this[i], i)] *)
Fixpoint render_functions (this : gmap string binding)
    (names : list string) (importCode : string) : result string :=
  match names with
  | [] => Ok importCode
  | i :: rest =>
      code <- functionDefToCode (this !! i) i ;;
      render_functions this rest (importCode +:+ code)
  end.

(** The import code, as a function of the object the host's loader
    binds [this] to at the top level of the module. *)
Definition importCode (this : gmap string binding) : result string :=
  let importCode := "" in
  match Table.get module_scope "mockFunctionKey" with
  | Some key =>
      code <- variableDefToCode key "mockFunctionKey" ;;
      render_functions this funcImports (importCode +:+ code)
  | None => Throw ReferenceError
  end.

End Bridge.

End Mocks.

(** ** The engine on the expressions the unary replacers rewrite *)

Module Engine.

(** The update expression [op x] or [x op] on the variable [x]. *)
Definition update_of (op : string) (pre : bool) (x : string)
  : Replacer.node :=
  {| Replacer.type := Replacer.Syntax.UpdateExpression;
     Replacer.operator := Some op; Replacer.prefix := Some pre;
     Replacer.name := None;
     Replacer.argument := Some (Replacer.identifier x);
     Replacer.left := None; Replacer.right := None;
     Replacer.callee := None; Replacer.arguments := None |}.

Section Native.

Variable js_unary : string -> value -> result value.

(** The engine's evaluation of the two expression forms met when an
    update expression is rewritten, in an environment [env] of
    variables and a namespace [ns] of installed functions:
    - an identifier reads its variable;
    - an update expression on an identifier stores the new value
      [js_unary op old] in the variable and evaluates to it in
      prefix position, and to the old value as a number
      ([js_unary "+" old]) in postfix position;
    - a call of an identifier with arguments evaluates the arguments
      left to right and calls the function the namespace holds; the
      callee receives values and cannot reach the caller's
      variables. *)
Definition eval_identifier (env : gmap string value) (n : Replacer.node)
  : result value :=
  match Replacer.name n with
  | Some x =>
      match env !! x with
      | Some v => Ok v
      | None => Throw ReferenceError
      end
  | None => Throw SyntaxError
  end.

Fixpoint eval_arguments (env : gmap string value)
    (args : list (option Replacer.node)) : result (list value) :=
  match args with
  | [] => Ok []
  | Some a :: rest =>
      v <- eval_identifier env a ;;
      vs <- eval_arguments env rest ;;
      Ok (v :: vs)
  | None :: _ => Throw SyntaxError
  end.

Definition eval_update (env : gmap string value) (n : Replacer.node)
  : result (value * gmap string value) :=
  match Replacer.operator n, Replacer.prefix n, Replacer.argument n with
  | Some op, Some pre, Some target =>
      match Replacer.name target with
      | Some x =>
          old <- eval_identifier env target ;;
          oldValue <- js_unary "+" old ;;
          newValue <- js_unary op old ;;
          Ok (if pre then newValue else oldValue,
              <[x := newValue]> env)
      | None => Throw SyntaxError
      end
  | _, _, _ => Throw SyntaxError
  end.

Definition eval_call (ns : gmap string func) (env : gmap string value)
    (n : Replacer.node) : result (value * gmap string value) :=
  match Replacer.callee n, Replacer.arguments n with
  | Some c, Some args =>
      match Replacer.name c with
      | Some f =>
          match ns !! f with
          | Some fn =>
              vs <- eval_arguments env args ;;
              r <- fn_call fn vs ;;
              Ok (r, env)
          | None => Throw ReferenceError
          end
      | None => Throw SyntaxError
      end
  | _, _ => Throw SyntaxError
  end.

Definition eval_expression (ns : gmap string func)
    (env : gmap string value) (n : Replacer.node)
  : result (value * gmap string value) :=
  if Replacer.type_is n Replacer.Syntax.UpdateExpression then
    eval_update env n
  else if Replacer.type_is n Replacer.Syntax.CallExpression then
    eval_call ns env n
  else if Replacer.type_is n Replacer.Syntax.Identifier then
    v <- eval_identifier env n ;; Ok (v, env)
  else Throw (OtherError "expression form not covered").

End Native.

End Engine.

(** ** A fragment of the engine's operator semantics

    The native operators on booleans, [null], strings and the integers
    a double holds exactly (up to 2^53 - 1 in absolute value), and
    [eval], as far as the concrete evaluations below need them. What the
    fragment does not cover is answered with [out_of_fragment], which is
    no answer of the engine; nothing below evaluates it there. *)

Module Sample.

Definition out_of_fragment : exn := OtherError "outside the fragment".

Definition safe (n : Z) : bool := Z.leb (Z.abs n) (Z.pow 2 53 - 1).

(** A number of the fragment, or no answer. *)
Definition number (n : Z) : result value :=
  if safe n then Ok (VNum n) else Throw out_of_fragment.

Definition unary (op : string) (v : value) : result value :=
  match v with
  | VBool b =>
      if String.eqb op "!" then Ok (VBool (negb b))
      else if String.eqb op "typeof" then Ok (VStr "boolean")
      else Throw out_of_fragment
  | VNum n =>
      if negb (safe n) then Throw out_of_fragment
      else if String.eqb op "++" then number (n + 1)
      else if String.eqb op "--" then number (n - 1)
      else if String.eqb op "+" then Ok (VNum n)
      else if String.eqb op "!" then Ok (VBool (Z.eqb n 0))
      else if String.eqb op "typeof" then Ok (VStr "number")
      else Throw out_of_fragment
  | _ => Throw out_of_fragment
  end.

(** [null] counts as 0 in arithmetic. *)
Definition as_number (v : value) : option Z :=
  match v with
  | VNum n => if safe n then Some n else None
  | VNull => Some 0
  | _ => None
  end.

(** A value that is not an object. *)
Definition primitive (v : value) : bool :=
  match v with
  | VTainted _ _ => false
  | _ => true
  end.

(** [x in y] throws a TypeError when [y] is not an object, whatever [x]
    is; two strings are concatenated by [+]. *)
Definition binary (op : string) (x y : value) : result value :=
  if String.eqb op "in" then
    if primitive y then Throw TypeError else Throw out_of_fragment
  else
    match x, y with
    | VStr a, VStr b =>
        if String.eqb op "+" then Ok (VStr (a +:+ b))
        else Throw out_of_fragment
    | VNum a, VNum b =>
        if negb (safe a && safe b) then Throw out_of_fragment
        else if String.eqb op "+" then number (a + b)
        else if String.eqb op "-" then number (a - b)
        else if String.eqb op "*" then number (a * b)
        else if String.eqb op "<" then Ok (VBool (Z.ltb a b))
        else if String.eqb op "==" || String.eqb op "==="
          then Ok (VBool (Z.eqb a b))
        else if String.eqb op "!=" || String.eqb op "!=="
          then Ok (VBool (negb (Z.eqb a b)))
        else Throw out_of_fragment
    | _, _ =>
        match as_number x, as_number y with
        | Some a, Some b =>
            if String.eqb op "+" then number (a + b)
            else if String.eqb op "-" then number (a - b)
            else if String.eqb op "*" then number (a * b)
            else Throw out_of_fragment
        | _, _ => Throw out_of_fragment
        end
    end.

(** [eval(x)] hands back an [x] that is not a string as it is; of the
    strings, the fragment has the empty program, whose value is
    [undefined], and the program [)], which does not parse. *)
Definition call (f : string) (x : value) : result value :=
  if String.eqb f "eval" then
    match x with
    | VStr s =>
        if String.eqb s "" then Ok VUndefined
        else if String.eqb s ")" then Throw SyntaxError
        else Throw out_of_fragment
    | _ => Ok x
    end
  else Throw out_of_fragment.

End Sample.

(** * Properties *)

(** ** Tables *)

Lemma replacerNames_keys :
  Table.keys Replacer.replacerNames =
  (Table.keys Replacer.functionNames
   ++ Table.keys Replacer.unaryOperatorNames
   ++ Table.keys Replacer.binaryOperatorNames)%list.
Proof. vm_compute. reflexivity. Qed.

Lemma get_Some_elem {V} (tbl : list (string * V)) k v :
  Table.get tbl k = Some v -> (k, v) ∈ tbl.
Proof.
  induction tbl as [| [k' v'] tbl IH]; simpl; [discriminate |].
  destruct (String.eqb_spec k' k) as [-> | _].
  - intros [= ->]. apply list_elem_of_here.
  - intros H. apply list_elem_of_further. auto.
Qed.

Lemma has_true_names {V} (tbl : list (string * V)) k :
  Table.has tbl k = true <-> k ∈ Table.names tbl.
Proof.
  unfold Table.has, Table.names.
  induction tbl as [| [k' v'] tbl IH]; simpl.
  - split; [discriminate | intros H; inversion H].
  - destruct (String.eqb_spec k' k) as [-> | Hne].
    + split; [intros _; apply list_elem_of_here | done].
    + rewrite IH. split; [apply list_elem_of_further |].
      intros H. inversion H; subst; [congruence | done].
Qed.

Lemma isUnaryOperator_cases op :
  Replacer.isUnaryOperator op = true ->
  op ∈ Table.names Replacer.unaryOperatorNames.
Proof. apply has_true_names. Qed.

Lemma isBinaryOperator_cases op :
  Replacer.isBinaryOperator op = true ->
  op ∈ Table.names Replacer.binaryOperatorNames.
Proof. apply has_true_names. Qed.

Lemma isFunction_cases f :
  Replacer.isFunction f = true -> f = "eval".
Proof.
  intros H%has_true_names. cbn in H. by apply list_elem_of_singleton in H.
Qed.

(** ** Replacers *)

Section ReplacerFacts.

Import Replacer.

Lemma replacers_eq :
  replacers =
  (map (fun kv => UnaryOperatorReplacerFactory (fst kv) (snd kv))
       unaryOperatorNames
   ++ map (fun kv => BinaryOperatorReplacerFactory (fst kv) (snd kv))
          binaryOperatorNames
   ++ map (fun kv => FunctionReplacerFactory (fst kv) (snd kv))
          functionNames)%list.
Proof. reflexivity. Qed.

Lemma createAllReplacers_completes :
  createAllReplacers = Ok replacers.
Proof. reflexivity. Qed.

Lemma replacers_origin r : r ∈ replacers -> rule_origin r.
Proof.
  rewrite replacers_eq, !elem_of_app, !list_elem_of_fmap.
  intros [([op nm] & -> & Hin) | [([op nm] & -> & Hin)
                                 | ([f nm] & -> & Hin)]].
  - by eapply from_unary.
  - by eapply from_binary.
  - by eapply from_function.
Qed.

Lemma unary_predicate_spec op nm n :
  predicate (UnaryOperatorReplacerFactory op nm) n =
  Ok ((type_is n Syntax.UnaryExpression
       || type_is n Syntax.UpdateExpression)
      && field_is (operator n) op).
Proof. reflexivity. Qed.

Lemma field_is_true f s : field_is f s = true <-> f = Some s.
Proof.
  destruct f as [x|]; simpl; [|split; discriminate].
  rewrite String.eqb_eq. split; congruence.
Qed.

Lemma type_is_true n ty : type_is n ty = true <-> type n = ty.
Proof. apply String.eqb_eq. Qed.

End ReplacerFacts.

Section RewriteRules.

Import Replacer.

Lemma wrong_kind_no_unary_match op nm n :
  type n <> Syntax.UnaryExpression ->
  type n <> Syntax.UpdateExpression ->
  predicate (UnaryOperatorReplacerFactory op nm) n = Ok false.
Proof.
  intros H1 H2. rewrite unary_predicate_spec.
  destruct (type_is n Syntax.UnaryExpression) eqn:E1;
    [by apply type_is_true in E1 |].
  destruct (type_is n Syntax.UpdateExpression) eqn:E2;
    [by apply type_is_true in E2 |].
  reflexivity.
Qed.

(** C7. The predicate of a unary replacer matches a node exactly when
    the node is a unary or an update expression and carries the
    replacer's operator. The kind of the node is looked at first: a node
    of any other kind is not matched whatever its operator is, and so
    a binary or a logical expression never is. *)
Theorem unary_predicate_matches_iff op nm n :
  (predicate (UnaryOperatorReplacerFactory op nm) n = Ok true <->
     (type n = Syntax.UnaryExpression \/ type n = Syntax.UpdateExpression)
     /\ operator n = Some op)
  /\ (type n <> Syntax.UnaryExpression ->
      type n <> Syntax.UpdateExpression ->
      predicate (UnaryOperatorReplacerFactory op nm) n = Ok false)
  /\ (type n = Syntax.BinaryExpression \/ type n = Syntax.LogicalExpression ->
      predicate (UnaryOperatorReplacerFactory op nm) n = Ok false).
Proof.
  split; [| split].
  - rewrite unary_predicate_spec. split.
    + intros [= H]. apply andb_true_iff in H as [Hk Ho].
      apply orb_true_iff in Hk. rewrite !type_is_true in Hk.
      by apply field_is_true in Ho.
    + intros [Hk Ho]. f_equal. apply andb_true_iff. split.
      * apply orb_true_iff. by rewrite !type_is_true.
      * by apply field_is_true.
  - apply wrong_kind_no_unary_match.
  - intros [H | H]; apply wrong_kind_no_unary_match; rewrite H; discriminate.
Qed.

(** A binary node that carries the operator of a unary replacer is not
    matched by it. *)
Lemma unary_predicate_matches_iff_witness :
  predicate (UnaryOperatorReplacerFactory "!" "__logical_not__")
    {| type := Syntax.BinaryExpression; operator := Some "!";
       prefix := None; name := None; argument := None;
       left := Some (identifier "a"); right := Some (identifier "b");
       callee := None; arguments := None |} = Ok false.
Proof.
  apply (unary_predicate_matches_iff "!" "__logical_not__").
  left. reflexivity.
Defined.

(** *** What the transforms produce *)

Lemma replacement_names_not_eval :
  Forall (fun kv : string * string => snd kv <> "eval")
    (unaryOperatorNames ++ binaryOperatorNames ++ functionNames).
Proof. repeat constructor; discriminate. Qed.

(** A call of a function that is not named [eval] is matched by no
    replacer of the module. *)
Lemma renamed_call_unmatched r n c nm :
  r ∈ replacers ->
  type n = Syntax.CallExpression ->
  callee n = Some c -> name c = Some nm -> nm <> "eval" ->
  predicate r n = Ok false.
Proof.
  intros Hr Ht Hc Hn Hne.
  destruct (replacers_origin r Hr) as [op rn _ -> | op rn _ -> | f rn Hf ->].
  - apply wrong_kind_no_unary_match; rewrite Ht; discriminate.
  - simpl. unfold type_is. rewrite Ht. reflexivity.
  - apply list_elem_of_singleton in Hf as [= -> ->].
    simpl. unfold type_is. rewrite Ht, Hc, Hn. simpl.
    destruct (String.eqb_spec nm "eval"); [contradiction | reflexivity].
Qed.

(** A replacer applied to a node it matches produces a call of its
    replacement name. *)
Lemma replace_produces_call r n :
  r ∈ replacers -> predicate r n = Ok true ->
  exists n' c nm,
    replace r n = Ok n' /\ type n' = Syntax.CallExpression
    /\ callee n' = Some c /\ name c = Some nm /\ nm <> "eval".
Proof.
  intros Hr Hp.
  pose proof replacement_names_not_eval as Hnames.
  rewrite Forall_forall in Hnames.
  destruct (replacers_origin r Hr)
    as [op rn Hin -> | op rn Hin -> | f rn Hin ->].
  - eexists _, _, rn. repeat split; try reflexivity.
    apply (Hnames (op, rn)). rewrite !elem_of_app. auto.
  - eexists _, _, rn. repeat split; try reflexivity.
    apply (Hnames (op, rn)). rewrite !elem_of_app. auto.
  - simpl in Hp |- *.
    destruct (type_is n Syntax.CallExpression) eqn:Ht; [| discriminate].
    apply type_is_true in Ht.
    destruct (callee n) as [c |]; [| discriminate].
    eexists _, _, rn. repeat split; try reflexivity; [done |].
    apply (Hnames (f, rn)). rewrite !elem_of_app. auto.
Qed.

(** The two other nodes a transform touches. The identifier a unary or
    binary transform creates as callee is matched by no replacer, and
    renaming the callee, as the function transform does, changes the
    answer of no predicate on it. *)
Lemma identifier_unmatched r nm :
  r ∈ replacers -> predicate r (identifier nm) = Ok false.
Proof.
  intros Hr.
  destruct (replacers_origin r Hr) as [op rn _ -> | op rn _ -> | f rn _ ->];
    reflexivity.
Qed.

Lemma renamed_callee_same_answers r c nm :
  r ∈ replacers -> predicate r (set_name c nm) = predicate r c.
Proof.
  intros Hr.
  destruct (replacers_origin r Hr) as [op rn _ -> | op rn _ -> | f rn _ ->];
    reflexivity.
Qed.

Lemma apply_replacers_unmatched rs n :
  Forall (fun r => predicate r n = Ok false) rs ->
  apply_replacers rs n = Ok n.
Proof.
  induction 1 as [| r rs Hr _ IH]; simpl; [reflexivity |].
  rewrite Hr. simpl. exact IH.
Qed.

(** C6. Rewriting is stable: whenever a replacer of the module rewrites
    a node it matches, the node it produces is matched by no replacer
    of the module, the same one included; putting the produced node
    through the whole rule set again leaves it as it is. *)
Theorem rewritten_node_matches_no_rule r n :
  r ∈ replacers -> predicate r n = Ok true ->
  exists n',
    replace r n = Ok n'
    /\ Forall (fun r' => predicate r' n' = Ok false) replacers
    /\ apply_replacers replacers n' = Ok n'.
Proof.
  intros Hin Hp.
  destruct (replace_produces_call r n Hin Hp)
    as (n' & c & nm & Hr & Ht & Hc & Hn & Hne).
  assert (Forall (fun r' => predicate r' n' = Ok false) replacers) as Hall.
  { apply Forall_forall. intros r' Hr'. by eapply renamed_call_unmatched. }
  exists n'. split; [done |]. split; [done |].
  by apply apply_replacers_unmatched.
Qed.

End RewriteRules.

Section RuleCoverage.

Import Replacer.

Lemma rewritten_node_matches_no_rule_witness :
  exists n',
    replace (UnaryOperatorReplacerFactory "!" "__logical_not__")
      {| type := Syntax.UnaryExpression; operator := Some "!";
         prefix := Some true; name := None;
         argument := Some (identifier "x"); left := None; right := None;
         callee := None; arguments := None |} = Ok n'
    /\ Forall (fun r' => predicate r' n' = Ok false) replacers
    /\ apply_replacers replacers n' = Ok n'.
Proof.
  apply (rewritten_node_matches_no_rule
           (UnaryOperatorReplacerFactory "!" "__logical_not__")).
  - rewrite replacers_eq. set_solver.
  - reflexivity.
Defined.

Local Ltac one_rule :=
  match goal with
  | |- length (matching_rules ?n) = _ =>
      destruct n; simpl in *; simplify_eq; vm_compute; reflexivity
  end.

(** X8. Every syntax node of a symbol of the tables is matched by
    exactly one replacer of the module. *)
Lemma exactly_one_rule_matches sym n :
  occurrence_of sym n -> length (matching_rules n) = 1%nat.
Proof.
  intros [(Hs & Hk & Ho) | [(Hs & Hk & Ho) | (Hs & Hk & c & Hc & Hn)]].
  - apply isUnaryOperator_cases in Hs. cbn in Hs. set_unfold in Hs.
    destruct Hk; destruct_or!; one_rule.
  - apply isBinaryOperator_cases in Hs. cbn in Hs. set_unfold in Hs.
    destruct Hk; destruct_or!; one_rule.
  - apply isFunction_cases in Hs. subst sym.
    destruct n, c; simpl in *; simplify_eq. vm_compute. reflexivity.
Qed.

End RuleCoverage.

(** ** Mocks *)

Section MockFacts.

Import Proxy Mocks Engine.

Variable js_unary : string -> value -> result value.
Variable js_binary : string -> value -> value -> result value.
Variable js_call : string -> value -> result value.

(** *** The marker *)

Lemma markAsMocked_marks f : isMarkedAsMocked (markAsMocked f) = true.
Proof.
  unfold isMarkedAsMocked, markAsMocked, get_prop, set_prop. simpl.
  by rewrite lookup_insert_eq.
Qed.

Lemma unary_mock_marked op :
  isMarkedAsMocked (UnaryOperatorMockFactory js_unary op) = true.
Proof. apply markAsMocked_marks. Qed.

Lemma binary_mock_marked op :
  isMarkedAsMocked (BinaryOperatorMockFactory js_binary op) = true.
Proof. apply markAsMocked_marks. Qed.

Lemma function_mock_marked f :
  isMarkedAsMocked (FunctionMockFactory js_call f) = true.
Proof. apply markAsMocked_marks. Qed.

(** C8, at the equality factory. The function the equality factory
    returns does not carry the marker: the factory marks the operator
    function it builds and returns [resultFunc] unmarked, where the
    three other factories mark both. *)
Theorem equality_mock_not_marked op :
  isMarkedAsMocked (EqualityOperatorMockFactory js_binary op) = false
  /\ isMarkedAsMocked (BinaryOperatorMockFactory js_binary op) = true
  /\ isMarkedAsMocked (UnaryOperatorMockFactory js_unary op) = true
  /\ isMarkedAsMocked (FunctionMockFactory js_call op) = true.
Proof.
  split; [reflexivity |].
  auto using unary_mock_marked, binary_mock_marked, function_mock_marked.
Qed.

(** *** Installing the mocks *)

Lemma isEqualityOperator_undefined : isEqualityOperator = None.
Proof. reflexivity. Qed.

Lemma eval_meets_undefined_predicate :
  select_factory js_unary js_binary js_call predicates "eval"
  = Throw TypeError.
Proof. reflexivity. Qed.

Lemma install_stops_at_eval rest obj :
  install_mocks js_unary js_binary js_call predicates ("eval" :: rest) obj
  = (obj, Throw TypeError).
Proof. reflexivity. Qed.

Lemma replacerNames_walk :
  Table.keys replacerNames
  = ("eval" :: Table.names Replacer.unaryOperatorNames
     ++ Table.names Replacer.binaryOperatorNames)%list.
Proof. vm_compute. reflexivity. Qed.

Lemma mapMocksToObject_stops obj :
  mapMocksToObject js_unary js_binary js_call obj = (obj, Throw TypeError).
Proof.
  unfold mapMocksToObject. rewrite replacerNames_walk.
  apply install_stops_at_eval.
Qed.

(** C2, at the installation. [mapMocksToObject] does not complete: the
    first name it visits is [eval], which neither the unary nor the
    binary predicate accepts, and the next predicate of the table,
    imported as [isEqualityOperator], is [undefined]; calling it is a
    TypeError. The target object is left as it was received, with no
    mock installed. *)
Theorem mapMocksToObject_throws obj :
  mapMocksToObject js_unary js_binary js_call obj = (obj, Throw TypeError).
Proof. apply mapMocksToObject_stops. Qed.

(** With an equality predicate in place, whatever it answers, the
    names are classified in table order and the binary predicate comes
    first: an equality operator gets the binary factory. *)
Lemma equality_operator_gets_binary_factory p op :
  op ∈ equalityOperators ->
  select_factory js_unary js_binary js_call
    [ ("unary", isUnaryOperator);
      ("binary", isBinaryOperator);
      ("equality", Some p);
      ("function", isFunction) ] op
  = Ok (Some (BinaryOperatorMockFactory js_binary)).
Proof.
  unfold equalityOperators. intros H. set_unfold in H.
  destruct_or!; subst op; reflexivity.
Qed.

(** The equality factory on its own does what is asked of an equality
    mock: the operands are unwrapped and the operator's answer is
    returned as it is. *)
Lemma equality_factory_result op a b :
  fn_call (EqualityOperatorMockFactory js_binary op) [a; b]
  = js_binary op (getWrappedObject a) (getWrappedObject b).
Proof. by destruct a, b. Qed.

(** *** The unary mocks *)

Lemma unary_mock_untainted op a :
  isObjectTainted a = false ->
  fn_call (UnaryOperatorMockFactory js_unary op) [a] = js_unary op a.
Proof. simpl. unfold arg. simpl. by intros ->. Qed.

(** The label of the result is built from the name the substrate
    reports for the unwrapped value, not for the tainted input. *)
Lemma unary_mock_tainted op raw label :
  fn_call (UnaryOperatorMockFactory js_unary op) [VTainted raw label]
  = (r <- js_unary op raw ;;
     Ok (VTainted r
           (op +:+ "(" +:+ name_text (getTaintedName raw) +:+ ")"))).
Proof. reflexivity. Qed.

(** The function mock reads the name before it unwraps. *)
Lemma function_mock_tainted f raw label :
  fn_call (FunctionMockFactory js_call f) [VTainted raw label]
  = (r <- js_call f raw ;;
     Ok (VTainted r (f +:+ "(" +:+ label +:+ ")"))).
Proof. reflexivity. Qed.

(** *** The binary mocks *)

Lemma binary_mock_unfold op a b :
  fn_call (BinaryOperatorMockFactory js_binary op) [a; b]
  = (lp <- operand_repr a ;;
     rp <- operand_repr b ;;
     if isObjectTainted a || isObjectTainted b then
       res <- js_binary op (snd lp) (snd rp) ;;
       Ok (VTainted res
             (op +:+ "(" +:+ fst lp +:+ "," +:+ fst rp +:+ ")"))
     else js_binary op (snd lp) (snd rp)).
Proof. reflexivity. Qed.


Lemma binary_mock_left_without_toString op a b :
  isObjectTainted a = false -> toString a = Throw TypeError ->
  fn_call (BinaryOperatorMockFactory js_binary op) [a; b] = Throw TypeError.
Proof.
  intros Ha Hs. rewrite binary_mock_unfold.
  unfold operand_repr. rewrite Ha, Hs. reflexivity.
Qed.

Lemma binary_mock_right_without_toString op a b p :
  operand_repr a = Ok p ->
  isObjectTainted b = false -> toString b = Throw TypeError ->
  fn_call (BinaryOperatorMockFactory js_binary op) [a; b] = Throw TypeError.
Proof.
  intros Ha Hb Hs. rewrite binary_mock_unfold, Ha.
  unfold operand_repr. rewrite Hb, Hs. reflexivity.
Qed.

(** When exactly one operand of a binary mock is tainted, the
    untainted one has the string form [s] and the operator returns
    [res] on the unwrapped operands, the mock returns [res] wrapped,
    with the label [op(leftRepr,rightRepr)]: the tracked name stands
    for the tainted operand, [value(s)] for the other, left before
    right. *)
Lemma binary_mock_one_tainted_label op a b raw label s res :
  (a = VTainted raw label -> isObjectTainted b = false ->
   toString b = Ok s -> js_binary op raw b = Ok res ->
   fn_call (BinaryOperatorMockFactory js_binary op) [a; b]
   = Ok (VTainted res
           (op +:+ "(" +:+ label +:+ "," +:+ ("value(" +:+ s +:+ ")")
            +:+ ")")))
  /\ (isObjectTainted a = false -> b = VTainted raw label ->
      toString a = Ok s -> js_binary op a raw = Ok res ->
      fn_call (BinaryOperatorMockFactory js_binary op) [a; b]
      = Ok (VTainted res
              (op +:+ "(" +:+ ("value(" +:+ s +:+ ")") +:+ "," +:+ label
               +:+ ")"))).
Proof.
  split.
  - intros -> Hb Hs Hres. rewrite binary_mock_unfold.
    unfold operand_repr at 2. rewrite Hb, Hs. simpl. by rewrite Hres.
  - intros Ha -> Hs Hres. rewrite binary_mock_unfold.
    unfold operand_repr at 1. rewrite Ha, Hs. simpl. by rewrite Hres.
Qed.

(** X22. Both operands tainted: the native result on the raw values,
    wrapped with both tracked names, left before right; no string form
    is asked for. *)
Lemma binary_mock_both_tainted op ra la rb lb :
  fn_call (BinaryOperatorMockFactory js_binary op)
    [VTainted ra la; VTainted rb lb]
  = (res <- js_binary op ra rb ;;
     Ok (VTainted res (op +:+ "(" +:+ la +:+ "," +:+ lb +:+ ")"))).
Proof. reflexivity. Qed.

(** *** Update expressions, native and rewritten *)

(** The engine on [x++], [++x], [x--], [--x]. *)
Lemma native_update op pre x env (v : value) :
  env !! x = Some v ->
  eval_expression js_unary ∅ env (update_of op pre x)
  = (oldValue <- js_unary "+" v ;;
     newValue <- js_unary op v ;;
     Ok (if pre then newValue else oldValue, <[x := newValue]> env)).
Proof.
  intros Hx. unfold eval_expression, eval_update, eval_identifier.
  simpl. rewrite Hx. reflexivity.
Qed.

(** The rewritten form [nm(x)], with the unary mock of [op] installed
    under [nm] and [x] untainted: the value of the prefix form in both
    positions, and the variable keeps its value. *)
Lemma rewritten_update op nm pre x env ns (v : value) :
  env !! x = Some v -> isObjectTainted v = false ->
  ns !! nm = Some (UnaryOperatorMockFactory js_unary op) ->
  exists n',
    Replacer.replace (Replacer.UnaryOperatorReplacerFactory op nm)
      (update_of op pre x) = Ok n'
    /\ eval_expression js_unary ns env n'
       = (newValue <- js_unary op v ;; Ok (newValue, env)).
Proof.
  intros Hx Hv Hns. eexists. split; [reflexivity |].
  unfold eval_expression, eval_call, eval_identifier. simpl.
  rewrite Hns. unfold eval_identifier. simpl. rewrite Hx. simpl.
  unfold arg. simpl. rewrite Hv. reflexivity.
Qed.

End MockFacts.

(** ** The mocks on concrete inputs *)

Section Scenarios.

Import Proxy Mocks Engine.

Lemma binary_mock_one_tainted_label_witness :
  fn_call (BinaryOperatorMockFactory Sample.binary "+")
    [VTainted (VNum 1) "src"; VNum 2]
  = Ok (VTainted (VNum 3) "+(src,value(2))").
Proof.
  apply (proj1 (binary_mock_one_tainted_label Sample.binary
                  "+" (VTainted (VNum 1) "src") (VNum 2)
                  (VNum 1) "src" "2" (VNum 3)));
    reflexivity.
Defined.

(** C5, at [+] with the left operand tainted and [null] on the right.
    The engine adds 1 and [null] to 1; the binary mock throws a
    TypeError instead of returning that result tainted and labelled:
    it asks the untainted operand for its [toString], which [null] and
    [undefined] do not have, before any label is built. The same holds
    for every operator, with the tainted operand on either side. With an
    untainted operand that has a string form the label is the claimed
    one, as for 1 tainted as [src] and 2: [+(src,value(2))]. *)
Theorem binary_mock_one_tainted_throws_on_null :
  Sample.binary "+" (VNum 1) VNull = Ok (VNum 1)
  /\ fn_call (BinaryOperatorMockFactory Sample.binary "+")
       [VTainted (VNum 1) "src"; VNull] = Throw TypeError
  /\ (forall js_binary op raw label,
        fn_call (BinaryOperatorMockFactory js_binary op)
          [VTainted raw label; VNull] = Throw TypeError
        /\ fn_call (BinaryOperatorMockFactory js_binary op)
             [VTainted raw label; VUndefined] = Throw TypeError
        /\ fn_call (BinaryOperatorMockFactory js_binary op)
             [VNull; VTainted raw label] = Throw TypeError
        /\ fn_call (BinaryOperatorMockFactory js_binary op)
             [VUndefined; VTainted raw label] = Throw TypeError)
  /\ fn_call (BinaryOperatorMockFactory Sample.binary "+")
       [VTainted (VNum 1) "src"; VNum 2]
     = Ok (VTainted (VNum 3) "+(src,value(2))").
Proof.
  split; [vm_compute; reflexivity |].
  split; [vm_compute; reflexivity |].
  split; [| vm_compute; reflexivity].
  intros js_binary op raw label. repeat split; reflexivity.
Qed.

(** Scenario B: [5 === 5] through the equality factory. *)
Example equality_factory_plain_true :
  fn_call (EqualityOperatorMockFactory Sample.binary "===")
    [VNum 5; VNum 5] = Ok (VBool true).
Proof. reflexivity. Qed.

(** C1, at the installation and at [==] with a tainted left operand.
    No mock is installed under the replacement name of an equality
    operator: [mapMocksToObject] throws at the first name it visits and
    leaves the target empty. Were the missing equality predicate
    supplied, each equality operator would still be given the binary
    factory, the binary predicate being asked first; and the binary
    mock of [==] wraps its answer as tainted. *)
Theorem equality_mocks_not_installed :
  Forall
    (fun op =>
       fst (mapMocksToObject Sample.unary Sample.binary Sample.call ∅)
         !! replacement_key op = None)
    equalityOperators
  /\ snd (mapMocksToObject Sample.unary Sample.binary Sample.call ∅)
     = Throw TypeError
  /\ (forall p,
        Forall
          (fun op =>
             select_factory Sample.unary Sample.binary Sample.call
               [ ("unary", isUnaryOperator);
                 ("binary", isBinaryOperator);
                 ("equality", Some p);
                 ("function", isFunction) ] op
             = Ok (Some (BinaryOperatorMockFactory Sample.binary)))
          equalityOperators)
  /\ fn_call (BinaryOperatorMockFactory Sample.binary "==")
       [VTainted (VNum 1) "src"; VNum 1]
     = Ok (VTainted (VBool true) "==(src,value(1))").
Proof.
  rewrite mapMocksToObject_stops. cbn [fst snd].
  split; [apply Forall_forall; intros; apply lookup_empty |].
  split; [reflexivity |].
  split; [| vm_compute; reflexivity].
  intros p. apply Forall_forall. intros op Hop.
  by apply equality_operator_gets_binary_factory.
Qed.

(** C3, at [null + 1]. The engine adds [null] and [1] to [1]; the
    binary mock of [+] throws a TypeError on the same untainted
    operands, because it calls [toString] on each untainted operand
    before anything else. The same happens for every operator and for
    [undefined], on either side. *)
Theorem binary_mock_throws_on_null :
  Sample.binary "+" VNull (VNum 1) = Ok (VNum 1)
  /\ fn_call (BinaryOperatorMockFactory Sample.binary "+")
       [VNull; VNum 1] = Throw TypeError
  /\ (forall js_binary op b,
        fn_call (BinaryOperatorMockFactory js_binary op) [VNull; b]
        = Throw TypeError
        /\ fn_call (BinaryOperatorMockFactory js_binary op) [VUndefined; b]
           = Throw TypeError)
  /\ (forall js_binary op,
        fn_call (BinaryOperatorMockFactory js_binary op) [VNum 1; VNull]
        = Throw TypeError
        /\ fn_call (BinaryOperatorMockFactory js_binary op)
             [VNum 1; VUndefined]
           = Throw TypeError).
Proof. repeat split; reflexivity. Qed.

(** C4, at scenario A. The logical-not mock on [true] tainted as
    [base] returns [false] wrapped with the label [!(undefined)], not
    [!(base)]: the mock unwraps its argument first and asks the
    substrate for the name of the raw value. The function mock, which
    asks before it unwraps, yields [eval(base)]. *)
Theorem unary_mock_label_from_unwrapped :
  fn_call (UnaryOperatorMockFactory Sample.unary "!")
    [VTainted (VBool true) "base"]
  = Ok (VTainted (VBool false) "!(undefined)")
  /\ (forall js_unary op raw label,
        fn_call (UnaryOperatorMockFactory js_unary op) [VTainted raw label]
        = (r <- js_unary op raw ;;
           Ok (VTainted r
                 (op +:+ "(" +:+ name_text (getTaintedName raw)
                  +:+ ")"))))
  /\ (forall js_call raw,
        fn_call (FunctionMockFactory js_call "eval") [VTainted raw "base"]
        = (r <- js_call "eval" raw ;; Ok (VTainted r "eval(base)"))).
Proof. repeat split; reflexivity. Qed.

(** C9, at [x++] with [x = 5]. The engine evaluates the postfix
    increment to 5 and leaves 6 in [x]; the rewritten form
    [__increment__(x)] evaluates to 6 and leaves [x] at 5. The prefix
    form agrees on the value, 6, and differs on [x] all the same. *)
Theorem postfix_increment_rewritten_differs :
  let env : gmap string value := {[ "x" := VNum 5 ]} in
  let ns : gmap string func :=
    {[ "__increment__" := UnaryOperatorMockFactory Sample.unary "++" ]} in
  let rule := Replacer.UnaryOperatorReplacerFactory "++" "__increment__" in
  Replacer.predicate rule (update_of "++" false "x") = Ok true
  /\ eval_expression Sample.unary ns env (update_of "++" false "x")
     = Ok (VNum 5, <["x" := VNum 6]> env)
  /\ eval_expression Sample.unary ns env (update_of "++" true "x")
     = Ok (VNum 6, <["x" := VNum 6]> env)
  /\ (forall pre, exists n',
        Replacer.replace rule (update_of "++" pre "x") = Ok n'
        /\ eval_expression Sample.unary ns env n' = Ok (VNum 6, env)).
Proof.
  repeat split; try reflexivity.
  intros pre. eexists. split; reflexivity.
Qed.

End Scenarios.

(** ** The generated import code *)

Section BridgeFacts.

Import Mocks.

Variable functionDefToCode : option binding -> string -> result string.
Variable variableDefToCode : binding -> string -> result string.

(** Every function the bridge asks for is bound in the module's own
    scope when the import code is built. *)
Lemma funcImports_bound_in_scope :
  Forall (fun i => Table.get module_scope i = Some (BoundFunction i))
    funcImports.
Proof. repeat constructor. Qed.

Lemma render_functions_total this names acc :
  (forall v i, exists code, functionDefToCode v i = Ok code) ->
  exists code, render_functions functionDefToCode this names acc = Ok code.
Proof.
  intros Hf. revert acc.
  induction names as [| i names IH]; intros acc; simpl; [eauto |].
  destruct (Hf (this !! i) i) as [c ->]. simpl. apply IH.
Qed.

(** The bridge hands [this[i]] to the renderer as it is: nothing in it
    throws when the property is missing. With renderers that always
    produce text, the import code is produced for any [this]. *)
Lemma importCode_without_guard this :
  (forall v i, exists code, functionDefToCode v i = Ok code) ->
  (forall v i, exists code, variableDefToCode v i = Ok code) ->
  exists code,
    importCode functionDefToCode variableDefToCode this = Ok code.
Proof.
  intros Hf Hv. unfold importCode.
  change (Table.get module_scope "mockFunctionKey")
    with (Some (BoundString mockFunctionKey)).
  destruct (Hv (BoundString mockFunctionKey) "mockFunctionKey") as [c0 ->].
  by apply render_functions_total.
Qed.

End BridgeFacts.

(** * Further properties of the two modules *)

(** ** Objects as tables: writing and reading a property *)

Section TableFacts.

Context {V : Type}.
Implicit Types (tbl : list (string * V)) (k : string) (v : V).

(** Reading after [obj[k] = v]: at [k] the value written, unless the
    assignment went to the ['__proto__'] setter; elsewhere what was
    there. *)
Lemma get_set tbl k k' v :
  Table.get (Table.set tbl k v) k'
  = if String.eqb k k'
    then if Table.has tbl k || negb (String.eqb k "__proto__")
         then Some v else None
    else Table.get tbl k'.
Proof.
  unfold Table.has. induction tbl as [| [k0 w] tbl IH]; simpl.
  - destruct (String.eqb_spec k k') as [<- | Hne].
    + destruct (String.eqb k "__proto__"); simpl; [reflexivity |].
      by rewrite String.eqb_refl.
    + destruct (String.eqb k "__proto__"); simpl; [reflexivity |].
      destruct (String.eqb_spec k k'); [contradiction | reflexivity].
  - destruct (String.eqb_spec k0 k) as [-> | Hk0]; simpl.
    + destruct (String.eqb_spec k k'); reflexivity.
    + rewrite IH. destruct (String.eqb_spec k k') as [<- | Hne].
      * destruct (String.eqb_spec k0 k); [contradiction | reflexivity].
      * reflexivity.
Qed.

Lemma has_set_ne tbl k k' v :
  k <> k' -> Table.has (Table.set tbl k v) k' = Table.has tbl k'.
Proof.
  intros Hne. unfold Table.has. rewrite get_set.
  destruct (String.eqb_spec k k'); [contradiction | reflexivity].
Qed.

Lemma has_set_eq tbl k v :
  Table.has (Table.set tbl k v) k
  = Table.has tbl k || negb (String.eqb k "__proto__").
Proof.
  unfold Table.has at 1. rewrite get_set, String.eqb_refl.
  by destruct (Table.has tbl k || negb (String.eqb k "__proto__")).
Qed.

Lemma names_set tbl k v :
  Table.names (Table.set tbl k v)
  = if Table.has tbl k || String.eqb k "__proto__" then Table.names tbl
    else (Table.names tbl ++ [k])%list.
Proof.
  unfold Table.has, Table.names.
  induction tbl as [| [k' w] tbl IH]; simpl.
  - by destruct (String.eqb k "__proto__").
  - destruct (String.eqb_spec k' k) as [-> | Hne]; simpl; [reflexivity |].
    rewrite IH.
    by destruct (Table.get tbl k), (String.eqb k "__proto__").
Qed.

Lemma has_app tbl1 tbl2 k :
  Table.has (tbl1 ++ tbl2) k = Table.has tbl1 k || Table.has tbl2 k.
Proof.
  unfold Table.has. induction tbl1 as [| [k' w] tbl1 IH]; simpl.
  - reflexivity.
  - destruct (String.eqb k' k); [reflexivity | exact IH].
Qed.

(** Two rows of a table with distinct keys that share a key share the
    value. *)
Lemma NoDup_names_functional tbl k v1 v2 :
  NoDup (Table.names tbl) -> (k, v1) ∈ tbl -> (k, v2) ∈ tbl -> v1 = v2.
Proof.
  unfold Table.names. induction tbl as [| [k' w] tbl IH]; simpl.
  - intros _ H. inversion H.
  - intros Hnd H1 H2. apply NoDup_cons in Hnd as [Hk' Hnd].
    apply elem_of_cons in H1 as [H1 | H1];
      apply elem_of_cons in H2 as [H2 | H2]; simplify_eq; auto.
    + exfalso. apply Hk'. apply list_elem_of_fmap. by exists (k', v2).
    + exfalso. apply Hk'. apply list_elem_of_fmap. by exists (k', v1).
Qed.

End TableFacts.

(** ** The order of [for ... in] *)

Lemma elem_of_insert_index i k l x :
  x ∈ Table.insert_index i k l <-> x = (i, k) \/ x ∈ l.
Proof.
  induction l as [| [j k'] l IH]; simpl.
  - rewrite list_elem_of_singleton. split; [auto |].
    intros [H | H]; [done | inversion H].
  - destruct (N.leb i j).
    + by rewrite elem_of_cons.
    + rewrite !elem_of_cons, IH. tauto.
Qed.

Lemma elem_of_sorted_indices i k names :
  (i, k) ∈ Table.sorted_indices names
  <-> k ∈ names /\ Table.array_index k = Some i.
Proof.
  induction names as [| k0 names IH]; simpl.
  - split; [intros H; inversion H | intros [H _]; inversion H].
  - destruct (Table.array_index k0) as [i0 |] eqn:E.
    + rewrite elem_of_insert_index, IH, elem_of_cons. split.
      * intros [[= -> ->] | [? ?]]; auto.
      * intros [[-> | ?] Hi]; [left; congruence | auto].
    + rewrite IH, elem_of_cons. split.
      * intros [? ?]; auto.
      * intros [[-> | ?] Hi]; [congruence | auto].
Qed.

(** [for ... in] walks every own key, and own keys only. *)
Lemma elem_of_for_in k names : k ∈ Table.for_in names <-> k ∈ names.
Proof.
  unfold Table.for_in. rewrite elem_of_app, list_elem_of_fmap.
  assert (k ∈ List.filter (fun k => negb (Table.is_index k)) names
          <-> k ∈ names /\ negb (Table.is_index k) = true) as ->.
  { rewrite !list_elem_of_In. apply List.filter_In. }
  unfold Table.is_index. split.
  - intros [([i k'] & -> & H) | [H _]]; [| done].
    by apply elem_of_sorted_indices in H as [H _].
  - intros H. destruct (Table.array_index k) as [i |] eqn:E.
    + left. exists (i, k). split; [done |].
      by apply elem_of_sorted_indices.
    + right. done.
Qed.

Lemma has_true_keys {V} (tbl : list (string * V)) k :
  Table.has tbl k = true <-> k ∈ Table.keys tbl.
Proof. unfold Table.keys. by rewrite elem_of_for_in, has_true_names. Qed.

(** ** copyObject and the name tables *)

Section NameTables.

Import Replacer.

Lemma copy_keys_get src ks dst k :
  Table.get (copy_keys src ks dst) k
  = if bool_decide (k ∈ ks)
    then match Table.get src k with
         | Some v =>
             if String.eqb k "__proto__" && negb (Table.has dst k)
             then None else Some v
         | None => Table.get dst k
         end
    else Table.get dst k.
Proof.
  unfold copy_keys. revert dst.
  induction ks as [| k0 ks IH]; intros dst; simpl; [reflexivity |].
  rewrite IH. clear IH.
  destruct (String.eqb_spec k0 k) as [-> | Hne].
  - rewrite (bool_decide_eq_true_2 (k ∈ k :: ks)) by apply list_elem_of_here.
    destruct (Table.get src k) as [v |] eqn:Hsrc.
    + rewrite has_set_eq, get_set, String.eqb_refl.
      destruct (Table.has dst k), (String.eqb k "__proto__");
        by destruct (bool_decide (k ∈ ks)).
    + by destruct (bool_decide (k ∈ ks)).
  - assert (bool_decide (k ∈ k0 :: ks) = bool_decide (k ∈ ks)) as ->.
    { apply bool_decide_ext. rewrite elem_of_cons.
      split; [intros [-> | H]; [congruence | done] | auto]. }
    destruct (Table.get src k0) as [v0 |]; [| reflexivity].
    rewrite has_set_ne, get_set by done.
    destruct (String.eqb_spec k0 k); [contradiction | reflexivity].
Qed.

Lemma copy_keys_names src ks dst :
  NoDup ks -> Forall (fun k => Table.has src k = true) ks ->
  Table.names (copy_keys src ks dst)
  = (Table.names dst
     ++ List.filter
          (fun k => negb (Table.has dst k)
                    && negb (String.eqb k "__proto__")) ks)%list.
Proof.
  unfold copy_keys. revert dst.
  induction ks as [| k0 ks IH]; intros dst Hnd Hsrc; simpl.
  - by rewrite app_nil_r.
  - apply NoDup_cons in Hnd as [Hk0 Hnd].
    apply Forall_cons in Hsrc as [Hsrc0 Hsrc].
    unfold Table.has in Hsrc0.
    destruct (Table.get src k0) as [v0 |]; [| discriminate].
    rewrite IH by done. rewrite names_set.
    assert (List.filter
              (fun k => negb (Table.has (Table.set dst k0 v0) k)
                        && negb (String.eqb k "__proto__")) ks
            = List.filter
                (fun k => negb (Table.has dst k)
                          && negb (String.eqb k "__proto__")) ks) as ->.
    { apply List.filter_ext_in. intros k Hk. rewrite has_set_ne; [done |].
      intros ->. apply Hk0. by apply list_elem_of_In. }
    destruct (Table.has dst k0), (String.eqb k0 "__proto__"); simpl;
      try reflexivity.
    by rewrite <- app_assoc.
Qed.

(** X1. Reading an own property of a copied-into object: the value of
    the source when the source has the property, the destination's own
    value otherwise. The one exception is the key ['__proto__'], which
    the copy does not create on a destination that lacks it. *)
Theorem copyObject_lookup src dst k :
  Table.get (copyObject src dst) k
  = match Table.get src k with
    | Some v =>
        if String.eqb k "__proto__" && negb (Table.has dst k)
        then None else Some v
    | None => Table.get dst k
    end.
Proof.
  unfold copyObject. rewrite copy_keys_get.
  destruct (bool_decide (k ∈ Table.keys src)) eqn:E; [reflexivity |].
  apply bool_decide_eq_false in E.
  destruct (Table.get src k) as [v |] eqn:Hsrc; [| reflexivity].
  exfalso. apply E, has_true_keys. unfold Table.has. by rewrite Hsrc.
Qed.

(** X2. The order [for ... in] walks a copied-into object: that of the
    keys the destination had, as created, followed by the keys of the
    source that the destination lacked, ['__proto__'] left out, in the
    order the source is walked; array indices come first, ascending. *)
Theorem copyObject_keys src dst :
  NoDup (Table.keys src) ->
  Table.keys (copyObject src dst)
  = Table.for_in
      (Table.names dst
       ++ List.filter
            (fun k => negb (Table.has dst k)
                      && negb (String.eqb k "__proto__"))
            (Table.keys src))%list.
Proof.
  intros Hnd. unfold Table.keys at 1, copyObject.
  rewrite copy_keys_names; [reflexivity | exact Hnd |].
  apply Forall_forall. intros k Hk. by apply has_true_keys.
Qed.

Lemma copyObject_keys_witness :
  Table.keys (copyObject [("b", "x"); ("1", "y"); ("__proto__", "z")]
                [("a", "w")])
  = ["1"; "a"; "b"].
Proof.
  rewrite copyObject_keys.
  - reflexivity.
  - apply (bool_decide_unpack _). vm_compute. reflexivity.
Defined.

Lemma table_names_NoDup :
  NoDup (Table.names functionNames)
  /\ NoDup (Table.names unaryOperatorNames)
  /\ NoDup (Table.names binaryOperatorNames).
Proof.
  repeat split; apply (bool_decide_unpack _); vm_compute; reflexivity.
Qed.

Lemma replacement_names_NoDup : NoDup (map snd replacerNames).
Proof.
  apply (bool_decide_unpack _). vm_compute. reflexivity.
Qed.

(** X3. No two symbols are replaced by the same function name. *)
Theorem replacement_name_injective sym1 sym2 nm :
  Table.get replacerNames sym1 = Some nm ->
  Table.get replacerNames sym2 = Some nm ->
  sym1 = sym2.
Proof.
  intros H1%get_Some_elem H2%get_Some_elem.
  pose proof replacement_names_NoDup as Hnd.
  revert H1 H2 Hnd. generalize replacerNames as tbl.
  induction tbl as [| [k v] tbl IH]; simpl; intros H1 H2 Hnd.
  - inversion H1.
  - apply NoDup_cons in Hnd as [Hv Hnd].
    apply elem_of_cons in H1 as [H1 | H1];
      apply elem_of_cons in H2 as [H2 | H2]; simplify_eq; auto.
    + exfalso. apply Hv. apply list_elem_of_fmap. by exists (sym2, v).
    + exfalso. apply Hv. apply list_elem_of_fmap. by exists (sym1, v).
Qed.

Lemma replacement_name_injective_witness : "++" = "++".
Proof.
  apply (replacement_name_injective "++" "++" "__increment__");
    reflexivity.
Defined.

Lemma replacerNames_rows :
  replacerNames
  = (functionNames ++ unaryOperatorNames ++ binaryOperatorNames)%list.
Proof. vm_compute. reflexivity. Qed.

(** X4. [replacerNames] holds exactly the symbols the three predicates
    accept, and no symbol is accepted by two of them. *)
Theorem symbol_in_one_category sym :
  Table.has replacerNames sym
  = isUnaryOperator sym || isBinaryOperator sym || isFunction sym
  /\ isUnaryOperator sym && isBinaryOperator sym = false
  /\ isUnaryOperator sym && isFunction sym = false
  /\ isBinaryOperator sym && isFunction sym = false.
Proof.
  split.
  - rewrite replacerNames_rows, !has_app.
    unfold isUnaryOperator, isBinaryOperator, isFunction.
    by destruct (Table.has functionNames sym),
      (Table.has unaryOperatorNames sym), (Table.has binaryOperatorNames sym).
  - repeat split; apply not_true_iff_false; intros H;
      apply andb_true_iff in H as [H1 H2];
      unfold isUnaryOperator, isBinaryOperator, isFunction in *;
      apply has_true_names in H1, H2; cbn in H1, H2;
      set_unfold in H1; set_unfold in H2; destruct_or!; simplify_eq.
Qed.

End NameTables.

(** ** The rule set as a whole *)

Section RuleSet.

Import Replacer.

(** X5. The predicate of a binary replacer never throws, and matches
    exactly the binary and logical expressions that carry its
    operator. *)
Theorem binary_predicate_matches_iff op nm n :
  (predicate (BinaryOperatorReplacerFactory op nm) n = Ok true <->
     (type n = Syntax.BinaryExpression \/ type n = Syntax.LogicalExpression)
     /\ operator n = Some op)
  /\ (exists b, predicate (BinaryOperatorReplacerFactory op nm) n = Ok b).
Proof.
  split; [| by eexists]. simpl. split.
  - intros [= H]. apply andb_true_iff in H as [Hk Ho].
    apply orb_true_iff in Hk. rewrite !type_is_true in Hk.
    by apply field_is_true in Ho.
  - intros [Hk Ho]. f_equal. apply andb_true_iff. split.
    + apply orb_true_iff. by rewrite !type_is_true.
    + by apply field_is_true.
Qed.

(** X6. The predicate of a function replacer matches exactly the calls
    whose callee is named as the function; it throws, a TypeError, on
    exactly the call expressions that have no callee. *)
Theorem function_predicate_spec f nm n :
  (predicate (FunctionReplacerFactory f nm) n = Ok true <->
     type n = Syntax.CallExpression
     /\ exists c, callee n = Some c /\ name c = Some f)
  /\ (forall e,
        predicate (FunctionReplacerFactory f nm) n = Throw e <->
        type n = Syntax.CallExpression /\ callee n = None /\ e = TypeError).
Proof.
  simpl. destruct (type_is n Syntax.CallExpression) eqn:Ht.
  - apply type_is_true in Ht. destruct (callee n) as [c |] eqn:Hc.
    + split.
      * split.
        -- intros [= H%field_is_true]. eauto.
        -- intros (_ & c' & [= <-] & Hn). f_equal. by apply field_is_true.
      * intros e. split; [discriminate | by intros (_ & ? & _)].
    + split.
      * split; [discriminate | by intros (_ & c' & ? & _)].
      * intros e. split; [by intros [= <-] | by intros (_ & _ & ->)].
  - assert (type n <> Syntax.CallExpression) as Hne.
    { intros H%type_is_true. congruence. }
    split.
    + split; [discriminate | by intros (? & _)].
    + intros e. split; [discriminate | by intros (? & _)].
Qed.

Lemma unary_matches_inv op nm n :
  predicate (UnaryOperatorReplacerFactory op nm) n = Ok true ->
  (type n = Syntax.UnaryExpression \/ type n = Syntax.UpdateExpression)
  /\ operator n = Some op.
Proof.
  rewrite unary_predicate_spec. intros [= H].
  apply andb_true_iff in H as [Hk Ho].
  apply orb_true_iff in Hk. rewrite !type_is_true in Hk.
  by apply field_is_true in Ho.
Qed.

Lemma binary_matches_inv op nm n :
  predicate (BinaryOperatorReplacerFactory op nm) n = Ok true ->
  (type n = Syntax.BinaryExpression \/ type n = Syntax.LogicalExpression)
  /\ operator n = Some op.
Proof.
  simpl. intros [= H]. apply andb_true_iff in H as [Hk Ho].
  apply orb_true_iff in Hk. rewrite !type_is_true in Hk.
  by apply field_is_true in Ho.
Qed.

Lemma function_matches_inv f nm n :
  predicate (FunctionReplacerFactory f nm) n = Ok true ->
  type n = Syntax.CallExpression
  /\ exists c, callee n = Some c /\ name c = Some f.
Proof.
  simpl. destruct (type_is n Syntax.CallExpression) eqn:Ht; [| discriminate].
  apply type_is_true in Ht.
  destruct (callee n) as [c |]; [| discriminate].
  intros [= H%field_is_true]. eauto.
Qed.

Lemma matched_is_occurrence r n :
  r ∈ replacers -> predicate r n = Ok true ->
  exists sym, occurrence_of sym n.
Proof.
  intros Hr Hp.
  destruct (replacers_origin r Hr)
    as [op rn Hin -> | op rn Hin -> | f rn Hin ->].
  - apply unary_matches_inv in Hp as [Hk Ho].
    exists op. left. repeat split; [| done..].
    apply has_true_names, list_elem_of_fmap. by exists (op, rn).
  - apply binary_matches_inv in Hp as [Hk Ho].
    exists op. right; left. repeat split; [| done..].
    apply has_true_names, list_elem_of_fmap. by exists (op, rn).
  - apply function_matches_inv in Hp as [Ht Hc].
    exists f. right; right. repeat split; [| done..].
    apply has_true_names, list_elem_of_fmap. by exists (f, rn).
Qed.

(** X7. The rule set is disjoint: two replacers of the module that match
    the same node, whatever the node, are the same replacer. *)
Theorem matching_replacers_equal r1 r2 n :
  r1 ∈ replacers -> r2 ∈ replacers ->
  predicate r1 n = Ok true -> predicate r2 n = Ok true ->
  r1 = r2.
Proof.
  intros H1 H2 Hp1 Hp2.
  destruct table_names_NoDup as (Hf & Hu & Hb).
  destruct (replacers_origin r1 H1)
    as [op1 n1 Hin1 -> | op1 n1 Hin1 -> | f1 n1 Hin1 ->];
    destruct (replacers_origin r2 H2)
      as [op2 n2 Hin2 -> | op2 n2 Hin2 -> | f2 n2 Hin2 ->].
  - apply unary_matches_inv in Hp1 as [_ Ho1].
    apply unary_matches_inv in Hp2 as [_ Ho2].
    assert (op1 = op2) as <- by congruence.
    by rewrite (NoDup_names_functional _ _ _ _ Hu Hin1 Hin2).
  - apply unary_matches_inv in Hp1 as [Hk1 _].
    apply binary_matches_inv in Hp2 as [Hk2 _].
    destruct Hk1 as [E | E], Hk2 as [E' | E']; rewrite E in E'; discriminate.
  - apply unary_matches_inv in Hp1 as [Hk1 _].
    apply function_matches_inv in Hp2 as [E' _].
    destruct Hk1 as [E | E]; rewrite E in E'; discriminate.
  - apply binary_matches_inv in Hp1 as [Hk1 _].
    apply unary_matches_inv in Hp2 as [Hk2 _].
    destruct Hk1 as [E | E], Hk2 as [E' | E']; rewrite E in E'; discriminate.
  - apply binary_matches_inv in Hp1 as [_ Ho1].
    apply binary_matches_inv in Hp2 as [_ Ho2].
    assert (op1 = op2) as <- by congruence.
    by rewrite (NoDup_names_functional _ _ _ _ Hb Hin1 Hin2).
  - apply binary_matches_inv in Hp1 as [Hk1 _].
    apply function_matches_inv in Hp2 as [E' _].
    destruct Hk1 as [E | E]; rewrite E in E'; discriminate.
  - apply function_matches_inv in Hp1 as [E _].
    apply unary_matches_inv in Hp2 as [Hk2 _].
    destruct Hk2 as [E' | E']; rewrite E in E'; discriminate.
  - apply function_matches_inv in Hp1 as [E _].
    apply binary_matches_inv in Hp2 as [Hk2 _].
    destruct Hk2 as [E' | E']; rewrite E in E'; discriminate.
  - apply function_matches_inv in Hp1 as (_ & c1 & Hc1 & Hn1).
    apply function_matches_inv in Hp2 as (_ & c2 & Hc2 & Hn2).
    assert (f1 = f2) as <- by congruence.
    by rewrite (NoDup_names_functional _ _ _ _ Hf Hin1 Hin2).
Qed.

End RuleSet.

Section RuleSetPass.

Import Replacer.

Lemma matching_replacers_equal_witness :
  UnaryOperatorReplacerFactory "!" "__logical_not__"
  = UnaryOperatorReplacerFactory "!" "__logical_not__".
Proof.
  apply (matching_replacers_equal _ _
           {| type := Syntax.UnaryExpression; operator := Some "!";
              prefix := Some true; name := None;
              argument := Some (identifier "x"); left := None;
              right := None; callee := None; arguments := None |}).
  - rewrite replacers_eq. set_solver.
  - rewrite replacers_eq. set_solver.
  - reflexivity.
  - reflexivity.
Defined.

Lemma exactly_one_rule_matches_witness :
  length (matching_rules
            {| type := Syntax.LogicalExpression; operator := Some "&&";
               prefix := None; name := None; argument := None;
               left := Some (identifier "a"); right := Some (identifier "b");
               callee := None; arguments := None |}) = 1%nat.
Proof.
  apply (exactly_one_rule_matches "&&").
  right; left.
  split; [reflexivity | split; [right; reflexivity | reflexivity]].
Defined.

Lemma apply_replacers_skip rs1 rs2 n :
  Forall (fun r => predicate r n = Ok false) rs1 ->
  apply_replacers (rs1 ++ rs2) n = apply_replacers rs2 n.
Proof.
  induction 1 as [| r rs Hr _ IH]; simpl; [reflexivity |].
  rewrite Hr. simpl. exact IH.
Qed.

(** X9. Pass-through: a node that is no occurrence of a symbol of the
    tables, and is not a call expression without callee, goes through
    the whole rule set unchanged. *)
Theorem unmatched_node_passes_through n :
  (forall sym, ~ occurrence_of sym n) ->
  ~ (type n = Syntax.CallExpression /\ callee n = None) ->
  apply_replacers replacers n = Ok n.
Proof.
  intros Hno Hcall. apply apply_replacers_unmatched, Forall_forall.
  intros r Hr. destruct (predicate r n) as [[|] | e] eqn:Hp.
  - destruct (matched_is_occurrence r n Hr Hp) as [sym Hsym].
    exfalso. by apply (Hno sym).
  - reflexivity.
  - exfalso. apply Hcall.
    destruct (replacers_origin r Hr)
      as [op rn _ -> | op rn _ -> | f rn _ ->]; try discriminate.
    simpl in Hp.
    destruct (type_is n Syntax.CallExpression) eqn:Ht; [| discriminate].
    apply type_is_true in Ht. by destruct (callee n).
Qed.

Lemma unmatched_node_passes_through_witness :
  apply_replacers replacers (identifier "x") = Ok (identifier "x").
Proof.
  apply unmatched_node_passes_through.
  - intros sym [(_ & [H | H] & _) | [(_ & [H | H] & _) | (_ & H & _)]];
      discriminate.
  - intros [H _]. discriminate.
Defined.

(** X10. A call expression that has no callee makes the rule set throw
    a TypeError: the unary and binary replacers pass it on and the
    function replacer, asked last, reads [node.callee.name]. *)
Theorem call_without_callee_throws n :
  type n = Syntax.CallExpression -> callee n = None ->
  apply_replacers replacers n = Throw TypeError.
Proof.
  intros Ht Hc. rewrite replacers_eq, app_assoc, apply_replacers_skip.
  - simpl. unfold type_is. by rewrite Ht, Hc.
  - apply Forall_forall. intros r Hr.
    apply elem_of_app in Hr as [Hr | Hr];
      apply list_elem_of_fmap in Hr as ([op rn] & -> & _); simpl;
      unfold type_is; by rewrite Ht.
Qed.

Lemma call_without_callee_throws_witness :
  apply_replacers replacers
    {| type := Syntax.CallExpression; operator := None; prefix := None;
       name := None; argument := None; left := None; right := None;
       callee := None; arguments := Some [] |} = Throw TypeError.
Proof. apply call_without_callee_throws; reflexivity. Defined.

Local Ltac run_rules :=
  match goal with
  | |- context [apply_replacers replacers ?n] =>
      destruct n; cbn [type operator] in *; simplify_eq;
      eexists; split; [vm_compute; reflexivity |];
      split; [reflexivity |];
      split; [| vm_compute; reflexivity];
      eexists; split; [reflexivity |];
      split; vm_compute; reflexivity
  end.

(** X11. Every occurrence of a symbol is rewritten by the rule set into
    a call of the name [replacerNames] gives the symbol, which is the
    key the mocks are installed under, with the operands as arguments,
    in source order: the operand of a unary or update expression, the
    left then the right operand of a binary or logical expression, and
    the arguments the call already had for a function. *)
Theorem occurrence_rewritten_to_named_call sym n :
  occurrence_of sym n ->
  exists n',
    apply_replacers replacers n = Ok n'
    /\ type n' = Syntax.CallExpression
    /\ (exists c, callee n' = Some c
                  /\ name c = Table.get replacerNames sym
                  /\ name c = Some (Mocks.replacement_key sym))
    /\ (arguments n' =
          if isUnaryOperator sym then Some [argument n]
          else if isBinaryOperator sym then Some [left n; right n]
          else arguments n).
Proof.
  intros [(Hs & Hk & Ho) | [(Hs & Hk & Ho) | (Hs & Hk & c & Hc & Hn)]].
  - apply isUnaryOperator_cases in Hs. cbn in Hs. set_unfold in Hs.
    destruct Hk; destruct_or!; run_rules.
  - apply isBinaryOperator_cases in Hs. cbn in Hs. set_unfold in Hs.
    destruct Hk; destruct_or!; run_rules.
  - apply isFunction_cases in Hs. subst sym.
    destruct n, c; cbn [type callee name] in *; simplify_eq.
    eexists; split; [vm_compute; reflexivity |].
    split; [reflexivity |]. split; [| reflexivity].
    eexists. split; [reflexivity |]. split; vm_compute; reflexivity.
Qed.

Lemma occurrence_rewritten_to_named_call_witness :
  exists n',
    apply_replacers replacers
      {| type := Syntax.BinaryExpression; operator := Some "+";
         prefix := None; name := None; argument := None;
         left := Some (identifier "a"); right := Some (identifier "b");
         callee := None; arguments := None |} = Ok n'
    /\ type n' = Syntax.CallExpression
    /\ (exists c, callee n' = Some c
                  /\ name c = Table.get replacerNames "+"
                  /\ name c = Some (Mocks.replacement_key "+"))
    /\ arguments n' = Some [Some (identifier "a"); Some (identifier "b")].
Proof.
  apply (occurrence_rewritten_to_named_call "+").
  right; left.
  split; [reflexivity | split; [left; reflexivity | reflexivity]].
Defined.

End RuleSetPass.

(** ** The mock factories *)

Section MockBehaviour.

Import Proxy Mocks.

Variable js_unary : string -> value -> result value.
Variable js_binary : string -> value -> value -> result value.
Variable js_call : string -> value -> result value.

(** X12. Marking a function sets the marker and nothing else: the
    marked function is recognised, it is called as before, its other
    properties read as before, and marking it again changes nothing. *)
Theorem markAsMocked_only_marks f :
  isMarkedAsMocked (markAsMocked f) = true
  /\ fn_call (markAsMocked f) = fn_call f
  /\ (forall key, key <> mockFunctionKey ->
        get_prop (markAsMocked f) key = get_prop f key)
  /\ markAsMocked (markAsMocked f) = markAsMocked f.
Proof.
  unfold isMarkedAsMocked, markAsMocked, get_prop, set_prop. simpl.
  repeat split.
  - by rewrite lookup_insert_eq.
  - intros key Hkey. by rewrite lookup_insert_ne.
  - by rewrite insert_insert_eq.
Qed.

(** X13. On an untainted argument the unary mock and the function mock
    are the native operator and the native function: same value, same
    error, no wrapper. *)
Theorem unary_and_function_mocks_transparent op f a :
  isObjectTainted a = false ->
  fn_call (UnaryOperatorMockFactory js_unary op) [a] = js_unary op a
  /\ fn_call (FunctionMockFactory js_call f) [a] = js_call f a.
Proof. simpl. unfold arg. simpl. by intros ->. Qed.

(** X14. An error of the native operator or function comes out of the
    unary and function mocks as it is, for a tainted argument as for an
    untainted one: it is neither swallowed nor wrapped. *)
Theorem unary_and_function_mocks_propagate_errors op f a e :
  (js_unary op (getWrappedObject a) = Throw e ->
   fn_call (UnaryOperatorMockFactory js_unary op) [a] = Throw e)
  /\ (js_call f (getWrappedObject a) = Throw e ->
      fn_call (FunctionMockFactory js_call f) [a] = Throw e).
Proof.
  split; intros H; destruct a; simpl in *; unfold arg; simpl;
    by rewrite H.
Qed.

(** X15. The same for the two-operand mocks: when each operand of a
    binary mock is tainted or has a string form, an error of the native
    operator on the unwrapped operands is the error of the mock; for the
    equality mock this holds for all operands. *)
Theorem binary_and_equality_mocks_propagate_errors op a b e :
  js_binary op (getWrappedObject a) (getWrappedObject b) = Throw e ->
  fn_call (EqualityOperatorMockFactory js_binary op) [a; b] = Throw e
  /\ ((isObjectTainted a = true \/ exists s, toString a = Ok s) ->
      (isObjectTainted b = true \/ exists s, toString b = Ok s) ->
      fn_call (BinaryOperatorMockFactory js_binary op) [a; b] = Throw e).
Proof.
  intros H. split.
  - rewrite equality_factory_result. exact H.
  - intros Ha Hb. rewrite binary_mock_unfold. unfold operand_repr.
    destruct (isObjectTainted a) eqn:Ea; destruct (isObjectTainted b) eqn:Eb;
      repeat match goal with
             | Hx : false = true \/ _ |- _ => destruct Hx as [? | [? ->]];
                                              [discriminate |]
             | Hx : true = true \/ _ |- _ => clear Hx
             end; simpl.
    + by rewrite H.
    + assert (getWrappedObject b = b) as Hwb by by destruct b.
      rewrite Hwb in H. by rewrite H.
    + assert (getWrappedObject a = a) as Hwa by by destruct a.
      rewrite Hwa in H. by rewrite H.
    + assert (getWrappedObject a = a) as Hwa by by destruct a.
      assert (getWrappedObject b = b) as Hwb by by destruct b.
      rewrite Hwa, Hwb in H. by rewrite H.
Qed.


(** X17. Labels nest as the mocks are composed: the function mock on a
    value tainted as [label] gives a value tainted as [f(label)], and a
    binary mock applied to that result and an untainted operand with
    string form [s] gives [op(f(label),value(s))]. *)
Theorem function_then_binary_label f op raw label b r s res :
  js_call f raw = Ok r ->
  isObjectTainted b = false -> toString b = Ok s ->
  js_binary op r b = Ok res ->
  exists t,
    fn_call (FunctionMockFactory js_call f) [VTainted raw label] = Ok t
    /\ getTaintedName t = Some (f +:+ "(" +:+ label +:+ ")")
    /\ fn_call (BinaryOperatorMockFactory js_binary op) [t; b]
       = Ok (VTainted res
               (op +:+ "(" +:+ (f +:+ "(" +:+ label +:+ ")") +:+ ","
                +:+ ("value(" +:+ s +:+ ")") +:+ ")")).
Proof.
  intros Hr Hb Hs Hres. eexists. split; [| split].
  - rewrite function_mock_tainted, Hr. reflexivity.
  - reflexivity.
  - rewrite binary_mock_unfold. unfold operand_repr at 2.
    rewrite Hb, Hs. simpl. by rewrite Hres.
Qed.

(** X18. How [mapMocksToObject] picks a factory, for any name: the unary
    factory for a unary operator, the binary factory for a key of the
    binary table, a TypeError for anything else. The loop never ends
    with [factory] undefined, so the 'Unknown type' throw is never
    reached. *)
Theorem select_factory_classifies name :
  select_factory js_unary js_binary js_call predicates name
  = (if Replacer.isUnaryOperator name
     then Ok (Some (UnaryOperatorMockFactory js_unary))
     else if Replacer.isBinaryOperator name
     then Ok (Some (BinaryOperatorMockFactory js_binary))
     else Throw TypeError)
  /\ select_factory js_unary js_binary js_call predicates name <> Ok None.
Proof.
  assert (select_factory js_unary js_binary js_call predicates name
          = (if Replacer.isUnaryOperator name
             then Ok (Some (UnaryOperatorMockFactory js_unary))
             else if Replacer.isBinaryOperator name
             then Ok (Some (BinaryOperatorMockFactory js_binary))
             else Throw TypeError)) as E by reflexivity.
  split; [exact E |]. rewrite E.
  by destruct (Replacer.isUnaryOperator name),
    (Replacer.isBinaryOperator name).
Qed.

End MockBehaviour.

Section MockBehaviourAtInputs.

Import Proxy Mocks.

(** X19. The equality mock is the native operator on the unwrapped
    operands, for all operands: no string form is asked for, so [null]
    and [undefined] are accepted, and the answer is handed back without
    a wrapper whatever the taint of the operands. *)
Theorem equality_mock_is_native_on_unwrapped
    (js_binary : string -> value -> value -> result value) op a b :
  fn_call (EqualityOperatorMockFactory js_binary op) [a; b]
  = js_binary op (getWrappedObject a) (getWrappedObject b)
  /\ fn_call (EqualityOperatorMockFactory js_binary op) [a]
     = js_binary op (getWrappedObject a) VUndefined.
Proof. split; by destruct a, b. Qed.

Lemma markAsMocked_only_marks_witness :
  get_prop (markAsMocked (unary_opFunc Sample.unary "!")) "length"
  = get_prop (unary_opFunc Sample.unary "!") "length".
Proof.
  apply (markAsMocked_only_marks (unary_opFunc Sample.unary "!")).
  discriminate.
Defined.

Lemma unary_and_function_mocks_transparent_witness :
  fn_call (UnaryOperatorMockFactory Sample.unary "typeof") [VNum 3]
  = Ok (VStr "number")
  /\ fn_call (FunctionMockFactory Sample.call "eval") [VNum 3]
     = Ok (VNum 3).
Proof.
  apply (unary_and_function_mocks_transparent
           Sample.unary Sample.call "typeof" "eval" (VNum 3)).
  reflexivity.
Defined.

Lemma unary_and_function_mocks_propagate_errors_witness :
  fn_call (FunctionMockFactory Sample.call "eval")
    [VTainted (VStr ")") "base"] = Throw SyntaxError.
Proof.
  apply (proj2 (unary_and_function_mocks_propagate_errors
                  Sample.unary Sample.call "!" "eval"
                  (VTainted (VStr ")") "base") SyntaxError)).
  reflexivity.
Defined.

Lemma binary_and_equality_mocks_propagate_errors_witness :
  fn_call (BinaryOperatorMockFactory Sample.binary "in")
    [VTainted (VStr "a") "src"; VNum 1] = Throw TypeError.
Proof.
  apply (proj2 (binary_and_equality_mocks_propagate_errors
                  Sample.binary "in" (VTainted (VStr "a") "src") (VNum 1)
                  TypeError eq_refl)).
  - left. reflexivity.
  - right. by exists "1".
Defined.


Lemma function_then_binary_label_witness :
  exists t,
    fn_call (FunctionMockFactory (fun _ v => Ok v) "eval")
      [VTainted (VNum 1) "src"] = Ok t
    /\ getTaintedName t = Some "eval(src)"
    /\ fn_call (BinaryOperatorMockFactory Sample.binary "+") [t; VNum 2]
       = Ok (VTainted (VNum 3) "+(eval(src),value(2))").
Proof.
  apply (function_then_binary_label Sample.binary (fun _ v => Ok v)
           "eval" "+" (VNum 1) "src" (VNum 2) (VNum 1) "2" (VNum 3));
    reflexivity.
Defined.

End MockBehaviourAtInputs.

(** ** The import code, for any renderer *)

Section BridgeOrder.

Import Mocks.

Variable functionDefToCode : option binding -> string -> result string.

(** X20. A renderer that throws for one of the requested names aborts
    the generation with that error: when the names before it render,
    the error of the first failing name is the result, whatever comes
    after it and whatever had been rendered so far. *)
Theorem render_functions_first_error this before i after acc e :
  Forall (fun j => exists code, functionDefToCode (this !! j) j = Ok code)
    before ->
  functionDefToCode (this !! i) i = Throw e ->
  render_functions functionDefToCode this (before ++ i :: after)%list acc
  = Throw e.
Proof.
  intros Hbefore Hi. revert acc.
  induction Hbefore as [| j before [code Hj] _ IH]; intros acc; simpl.
  - by rewrite Hi.
  - rewrite Hj. simpl. apply IH.
Qed.

End BridgeOrder.

Section BridgeOrderAtInputs.

Import Mocks.

Lemma render_functions_first_error_witness :
  render_functions
    (fun v i => match v with
                | Some _ => Ok ("var " +:+ i +:+ ";")
                | None => Throw TypeError
                end)
    {[ "markAsMocked" := BoundFunction "markAsMocked" ]}
    (["markAsMocked"] ++ "isMarkedAsMocked" :: ["mapMocksToObject"])%list ""
  = Throw TypeError.
Proof.
  apply render_functions_first_error.
  - repeat constructor. by eexists.
  - reflexivity.
Defined.

End BridgeOrderAtInputs.
